(** * tui-test: the execution engine, embedded and verified

    The development follows the repository's modules:
    - [test/testcase.ts]: suites, test cases, [outcome], [titlePath], ids;
    - [test/matchers/toHaveValue.ts]: the polling matcher;
    - [runner/runner.ts]: selection pipeline and the retry loop;
    - [runner/worker.ts]: dispatch of one attempt to the worker pool, the
      worker side of it and the mock suite;
    - [runner/transform.ts]: file extensions and the hash header of the
      cache;
    - [test/test.ts]: the declaration API and the worker-side registry.

    JavaScript strings are modelled by [string], arrays by [list], the
    registry object [globalThis.tests] by a [gmap] keyed by test id. *)

From Stdlib Require Import ZArith NArith Ascii String.
From Stdlib Require Import DecimalFacts DecimalPos DecimalN DecimalString.
From stdpp Require Import base decidable option list strings gmap.

Set Warnings "-register-all".

(** ** JavaScript string primitives used by the sources *)

(** [Array.prototype.join("")] on an array of strings. *)
Definition join (parts : list string) : string :=
  foldr String.append "" parts.

(** Template-literal rendering of a non-negative integral Number: its
    decimal digits (rows and timeouts stay far below 1e21, where JavaScript
    switches to the exponent form). *)
Definition numberToString (n : N) : string :=
  NilZero.string_of_uint (N.to_uint n).

(** [s.startsWith(p)]. *)
Fixpoint startsWith (p s : string) : bool :=
  match p, s with
  | EmptyString, _ => true
  | String a p', String b s' => bool_decide (a = b) && startsWith p' s'
  | String _ _, EmptyString => false
  end.

(** [s.includes(p)]: [p] starts at some position of [s]. *)
Fixpoint includes (s p : string) : bool :=
  startsWith p s ||
  match s with
  | EmptyString => false
  | String _ s' => includes s' p
  end.

(** [s.replaceAll(String.fromCharCode(92), two of them)]: every backslash is
    doubled. *)
Definition backslash : ascii := ascii_of_nat 92.

Fixpoint doubleBackslashes (s : string) : string :=
  match s with
  | EmptyString => EmptyString
  | String c s' =>
      if bool_decide (c = backslash)
      then String backslash (String backslash (doubleBackslashes s'))
      else String c (doubleBackslashes s')
  end.

(** ** test/testcase.ts *)

(** Modelled from the spec: the suite types ([test/suite.ts] is not part of
    the sources; [testcase.ts] compares the type with ["project"],
    ["describe"] and ["file"]). *)
Inductive SuiteType := root | project | file | describe.

#[global] Instance SuiteType_eq_dec : EqDecision SuiteType.
Proof. solve_decision. Defined.

(** The part of a Suite object that is fixed at construction: title, type
    and the parent link.  Children, tests and options are filled in later
    by the declaration API and live in the loader's state. *)
Inductive Suite := mkSuite {
  suite_title : string;
  suite_type : SuiteType;
  parentSuite : option Suite
}.

Record Location := mkLocation { row : N; column : N }.

Inductive TestStatus := expected | unexpected | pending | skipped | flaky.

#[global] Instance TestStatus_eq_dec : EqDecision TestStatus.
Proof. solve_decision. Defined.

Inductive SnapshotOutcome := matched | mismatched | written | updated | missing.

Record SnapshotStatus := mkSnapshotStatus {
  snapshot_name : string;
  snapshot_outcome : SnapshotOutcome
}.

Record TestResult := mkTestResult {
  status : TestStatus;
  error : option string;
  duration : Z;
  snapshots : list SnapshotStatus
}.

(** Modelled from the spec: the annotations of a test.  [runner.ts] reads
    [test.annotations]; [test.skip] and [test.fail] pass them to the
    constructor as its fifth argument; the [TestCase] class of the sources
    does not declare the field. *)
Inductive Annotation := only | skip | fail_.

#[global] Instance Annotation_eq_dec : EqDecision Annotation.
Proof. solve_decision. Defined.

(** Test bodies are opaque callables; a body is identified by a handle. *)
Definition TestFunction := nat.

Record TestCase := mkTestCase {
  title : string;
  location : Location;
  testFunction : TestFunction;
  suite : Suite;
  annotations : list Annotation;
  results : list TestResult
}.

(** The loop of [outcome()]: [status] is the status of the previous result,
    [rest] what is left of [results.slice(1)]. *)
Fixpoint outcome_loop (st : TestStatus) (rest : list TestResult) : TestStatus :=
  match rest with
  | [] => st
  | result :: rest' =>
      if (bool_decide (st = unexpected) && bool_decide (status result = expected))
         || (bool_decide (st = expected) && negb (bool_decide (status result = expected)))
      then flaky
      else outcome_loop (status result) rest'
  end.

Definition outcome (t : TestCase) : TestStatus :=
  match results t with
  | [] => skipped
  | r0 :: rest => outcome_loop (status r0) rest
  end.

(** [filePath()]: the title of the nearest enclosing file suite. *)
Fixpoint filePath_from (currentSuite : Suite) : option string :=
  if bool_decide (suite_type currentSuite = file)
  then Some (suite_title currentSuite)
  else match parentSuite currentSuite with
       | Some p => filePath_from p
       | None => None
       end.

Definition filePath (t : TestCase) : option string := filePath_from (suite t).

(** What one iteration of the [titlePath()] loop pushes for [currentSuite]. *)
Definition titlePath_push (r : N) (currentSuite : Suite) (titles : list string)
  : list string :=
  if bool_decide (suite_type currentSuite = project)
     && negb (bool_decide (String.length (suite_title currentSuite) = 0))
  then titles ++ ["[" +:+ suite_title currentSuite +:+ "]"]
  else if bool_decide (suite_type currentSuite = describe)
  then titles ++ [suite_title currentSuite]
  else if bool_decide (suite_type currentSuite = file)
  then titles ++ [suite_title currentSuite +:+ ":" +:+ numberToString r
                    +:+ ":" +:+ numberToString r]
  else titles.

(** The [while (currentSuite != null)] loop, walking root-ward. *)
Fixpoint titlePath_loop (r : N) (currentSuite : Suite) (titles : list string)
  : list string :=
  let titles' := titlePath_push r currentSuite titles in
  match parentSuite currentSuite with
  | Some p => titlePath_loop r p titles'
  | None => titles'
  end.

Definition titlePath (t : TestCase) : list string :=
  rev (titlePath_loop (row (location t)) (suite t) []) ++ [title t].

(** [this.id = this.titlePath().join("")]. *)
Definition id (t : TestCase) : string := join (titlePath t).

(** *** Specification-side reading of the outcome rule and of the title path *)

(** A transition between consecutive attempts that makes a test flaky:
    [unexpected] followed by [expected], or [expected] followed by anything
    that is not [expected]. *)
Definition flaky_transition (a b : TestStatus) : bool :=
  match a, b with
  | unexpected, expected => true
  | expected, expected => false
  | expected, _ => true
  | _, _ => false
  end.

Fixpoint has_flaky_transition (sts : list TestStatus) : bool :=
  match sts with
  | a :: (b :: _) as tl => flaky_transition a b || has_flaky_transition tl
  | _ => false
  end.

Definition spec_outcome (sts : list TestStatus) : TestStatus :=
  match sts with
  | [] => skipped
  | s :: ss => if has_flaky_transition (s :: ss) then flaky else List.last ss s
  end.

(** The suites met when walking from a suite to the root. *)
Fixpoint ancestors (s : Suite) : list Suite :=
  s :: match parentSuite s with
       | Some p => ancestors p
       | None => []
       end.

(** What the title path emits for one ancestor, for a test declared on
    row [r]. *)
Definition emitted (r : N) (s : Suite) : option string :=
  match suite_type s with
  | project =>
      if bool_decide (suite_title s = "") then None
      else Some ("[" +:+ suite_title s +:+ "]")
  | describe => Some (suite_title s)
  | file => Some (suite_title s +:+ ":" +:+ numberToString r +:+ ":" +:+ numberToString r)
  | root => None
  end.

Definition spec_titlePath (t : TestCase) : list string :=
  rev (omap (emitted (row (location t))) (ancestors (suite t))) ++ [title t].

(** *** Two describe groups whose tests got the fallback location

    [test.describe("a", () => test("bc", f))] and
    [test.describe("ab", () => test("c", g))] in [a.test.ts], in a project
    without a title; the call site could not be read off the stack, so
    both tests have the location [{ row: 0, column: 0 }]. *)
Definition rootSuite0 : Suite := mkSuite "Root Suite" root None.
Definition projectSuite0 : Suite := mkSuite "" project (Some rootSuite0).
Definition fileSuite0 : Suite := mkSuite "a.test.ts" file (Some projectSuite0).

Definition test_a_bc : TestCase :=
  mkTestCase "bc" (mkLocation 0 0) 1
    (mkSuite "a" describe (Some fileSuite0)) [] [].

Definition test_ab_c : TestCase :=
  mkTestCase "c" (mkLocation 0 0) 2
    (mkSuite "ab" describe (Some fileSuite0)) [] [].

(** ** config/config.ts (interface)

    The configuration module is consumed through its getters only. *)
Record Config := mkConfig {
  getTimeout : Z;
  getExpectTimeout : Z;
  getRetries : Z;
  globalTimeout : Z
}.

(** ** terminal/term.ts (interface)

    A terminal is observed through its two buffer getters; each returns the
    rows of the grid, a row being the list of its cells. *)
Record Terminal := mkTerminal {
  getBuffer : list (list string);
  getViewableBuffer : list (list string)
}.

(** ** Regular expressions

    A RegExp object is the engine for its pattern together with the mutable
    [lastIndex].  [re_search s i] is the engine run on [s] from position [i]
    and gives the end of the match it finds.  With the [g] or [y] flag
    ([re_stateful]) [test] starts at [lastIndex] and updates it; without,
    it starts at 0 and leaves the object alone. *)
Record RegExp := mkRegExp {
  re_search : string → nat → option nat;
  re_stateful : bool;
  re_toString : string;
  lastIndex : nat
}.

Definition set_lastIndex (r : RegExp) (i : nat) : RegExp :=
  mkRegExp (re_search r) (re_stateful r) (re_toString r) i.

Definition RegExp_test (r : RegExp) (s : string) : bool * RegExp :=
  if re_stateful r then
    match re_search r s (lastIndex r) with
    | Some e => (true, set_lastIndex r e)
    | None => (false, set_lastIndex r 0)
    end
  else (bool_decide (is_Some (re_search r s 0)), r).

(** The regular expression whose pattern is a literal text without special
    characters, e.g. [/>/] or [/>/g]. *)
Definition literalRegExp (pattern : string) (g : bool) : RegExp :=
  mkRegExp
    (λ s i, (λ pos, pos + String.length pattern) <$> String.index i pattern s)
    g
    ("/" +:+ pattern +:+ (if g then "/g" else "/"))
    0.

(** ** test/matchers/toHaveValue.ts *)

Inductive Expected :=
  | ExpString (s : string)
  | ExpRegExp (r : RegExp).

Record Options := mkOptions {
  opt_timeout : option Z;
  opt_full : option bool
}.

(** What the matcher call can change while it runs: the clock (milliseconds
    since the call) and the [lastIndex] of [expected]. *)
Record MatcherState := mkMatcherState {
  now : Z;
  expectedNow : Expected
}.

(** The screen as a function of time. *)
Definition Screen := Z → Terminal.

(** Modelled from the spec: [utils/poll.ts] is not part of the sources.
    The poll helper samples the predicate immediately, then after every
    sleep of [delay] ms, until the resolved condition holds (the predicate
    is true for a positive match, false for a negated one) or the deadline
    has passed; [sleeps] is the number of sleeps that fit before the
    deadline.  It hands back the last sample, which is what [toHaveValue]
    reports as [pass]: false is a positive failure, true a negated one. *)
Fixpoint poll_loop (callback : MatcherState → bool * MatcherState) (delay : Z)
    (isNot : bool) (sleeps : nat) (st : MatcherState) : bool * MatcherState :=
  let '(result, st') := callback st in
  if bool_decide (result ≠ isNot) then (result, st')
  else match sleeps with
       | 0 => (result, st')
       | S n =>
           poll_loop callback delay isNot n
             (mkMatcherState (now st' + delay) (expectedNow st'))
       end.

Definition poll (callback : MatcherState → bool * MatcherState)
    (delay timeout : Z) (isNot : bool) (st : MatcherState)
  : bool * MatcherState :=
  poll_loop callback delay isNot (Z.to_nat (timeout / delay)) st.

(** [.map((bufferLine) => bufferLine.join("")).join("")]. *)
Definition render (buffer : list (list string)) : string :=
  join (map join buffer).

(** [options?.full === true ? terminal.getBuffer() : terminal.getViewableBuffer()]. *)
Definition selectedBuffer (options : option Options) (terminal : Terminal)
  : list (list string) :=
  match options ≫= opt_full with
  | Some true => getBuffer terminal
  | _ => getViewableBuffer terminal
  end.

(** The callback handed to [poll]. *)
Definition toHaveValue_callback (screen : Screen) (options : option Options)
    (st : MatcherState) : bool * MatcherState :=
  let buffer := render (selectedBuffer options (screen (now st))) in
  match expectedNow st with
  | ExpString s => (includes buffer s, st)
  | ExpRegExp r =>
      let '(found, r') := RegExp_test r buffer in
      (found, mkMatcherState (now st) (ExpRegExp r'))
  end.

(** [chalk]: the colouring functions. *)
Record Chalk := mkChalk {
  red : string → string;
  green : string → string;
  dim : string → string
}.

Definition Expected_toString (e : Expected) : string :=
  match e with
  | ExpString s => s
  | ExpRegExp r => re_toString r
  end.

Definition comparisonMethod (e : Expected) : string :=
  match e with
  | ExpString _ => "String.prototype.includes search"
  | ExpRegExp _ => "RegExp.prototype.test search"
  end.

Definition newline : string := String (ascii_of_nat 10) "".

Record ExpectationResult := mkExpectationResult {
  pass : bool;
  message : string
}.

Definition toHaveValue_message (chalk : Chalk) (isNot pass : bool)
    (expected : Expected) : string :=
  if negb pass && negb isNot then
    "expect(" +:+ red chalk "received" +:+ ").toHaveValue("
      +:+ green chalk "expected" +:+ ") "
      +:+ dim chalk ("// " +:+ comparisonMethod expected)
      +:+ newline +:+ newline +:+ "Expected: "
      +:+ green chalk (Expected_toString expected)
      +:+ newline +:+ "Matches Found: " +:+ red chalk "0"
  else if pass && isNot then
    "expect(" +:+ red chalk "received" +:+ ").not.toHaveValue("
      +:+ green chalk "expected" +:+ ") "
      +:+ dim chalk ("// " +:+ comparisonMethod expected)
      +:+ newline +:+ newline +:+ "Expected: " +:+ green chalk "0 matches"
      +:+ newline +:+ "Found: " +:+ red chalk (Expected_toString expected)
  else "passed".

(** [toHaveValue], called at time 0 with [this.isNot = isNot]; besides the
    expectation result it gives the state in which the call returns. *)
Definition toHaveValue (cfg : Config) (chalk : Chalk) (isNot : bool)
    (screen : Screen) (expected : Expected) (options : option Options)
  : ExpectationResult * MatcherState :=
  let '(pass, st) :=
    poll (toHaveValue_callback screen options) 50
      (default (getExpectTimeout cfg) (options ≫= opt_timeout))
      isNot (mkMatcherState 0 expected) in
  (mkExpectationResult pass (toHaveValue_message chalk isNot pass expected), st).

(** The rule of the expect framework: an assertion goes through when [pass]
    differs from [isNot]. *)
Definition assertionSucceeds (isNot : bool) (r : ExpectationResult) : bool :=
  negb (eqb (pass r) isNot).

(** *** Specification-side reading of polling

    The state in which sample number [k] of a poll is taken (after [k]
    samples and [k] sleeps), and what that sample gives. *)
Fixpoint sampleState (callback : MatcherState → bool * MatcherState)
    (delay : Z) (k : nat) (st : MatcherState) : MatcherState :=
  match k with
  | 0 => st
  | S k' =>
      let st' := (callback st).2 in
      sampleState callback delay k'
        (mkMatcherState (now st' + delay) (expectedNow st'))
  end.

Definition sampleResult (callback : MatcherState → bool * MatcherState)
    (delay : Z) (k : nat) (st : MatcherState) : bool :=
  (callback (sampleState callback delay k st)).1.

(** A RegExp without the [g] and [y] flags, or a string: testing it does
    not change it. *)
Definition stateless (e : Expected) : bool :=
  match e with
  | ExpString _ => true
  | ExpRegExp r => negb (re_stateful r)
  end.

(** *** A prompt on a screen that does not change *)
Definition promptTerminal : Terminal :=
  mkTerminal [["o"; "l"; "d"]; [">"; " "; " "]] [[">"; " "; " "]].

Definition stableScreen : Screen := λ _, promptTerminal.

(** A screen on which the prompt shows up 120 ms after the call. *)
Definition latePromptScreen : Screen :=
  λ t, if bool_decide (t < 120)%Z
       then mkTerminal [[" "; " "; " "]] [[" "; " "; " "]]
       else promptTerminal.

Definition plainChalk : Chalk := mkChalk (λ s, s) (λ s, s) (λ s, s).

Definition defaultConfig : Config := mkConfig 30000 5000 0 0.

(** ** runner/runner.ts *)

(** [new RegExp(source)]: the engine compiles the pattern or throws a
    SyntaxError ([None]).  The object is created without flags. *)
Definition RegExpEngine := string → option (string → nat → option nat).

Definition RegExp_new (engine : RegExpEngine) (source : string) : option RegExp :=
  (λ search, mkRegExp search false ("/" +:+ source +:+ "/") 0) <$> engine source.

(** How a step of [run] ends: it goes on with a value, or the process
    exits with a code after writing a line to standard error. *)
Inductive RunStep (A : Type) :=
  | Proceed (a : A)
  | ProcessExit (code : Z) (stderr : string).
Arguments Proceed {A} a.
Arguments ProcessExit {A} code stderr.

Definition hasOnly (test : TestCase) : bool :=
  bool_decide (only ∈ annotations test).

(** [// refine with only annotations] *)
Definition refineWithOnly (allTests : list TestCase) : list TestCase :=
  match List.find hasOnly allTests with
  | Some _ => List.filter hasOnly allTests
  | None => allTests
  end.

Definition invalidFilterMessage : string :=
  "Error: invalid test filter supplied. Test filters must be valid regular expressions".

(** [options.testFilter.map((filter) => new RegExp(filter.replaceAll(...)))]:
    the first filter that does not compile throws. *)
Definition compilePatterns (engine : RegExpEngine) (testFilter : list string)
  : option (list RegExp) :=
  mapM (λ filter, RegExp_new engine (doubleBackslashes filter)) testFilter.

(** [// refine with test filters]; [resolve] is [path.resolve]. *)
Definition refineWithFilters (engine : RegExpEngine) (resolve : string → string)
    (testFilter : option (list string)) (allTests : list TestCase)
  : RunStep (list TestCase) :=
  match testFilter with
  | Some ((_ :: _) as filters) =>
      match compilePatterns engine filters with
      | Some patterns =>
          Proceed
            (List.filter
               (λ test,
                  let testPath := resolve (default "" (filePath test)) in
                  bool_decide (is_Some
                    (List.find (λ pattern, (RegExp_test pattern testPath).1)
                       patterns)))
               allTests)
      | None => ProcessExit 1 invalidFilterMessage
      end
  | _ => Proceed allTests
  end.

(** The selection pipeline of [run], from [rootSuite.allTests()] on. *)
Definition selectTests (engine : RegExpEngine) (resolve : string → string)
    (testFilter : option (list string)) (allTests : list TestCase)
  : RunStep (list TestCase) :=
  refineWithFilters engine resolve testFilter (refineWithOnly allTests).

(** [new Set(allTests.map((test) => test.id))]. *)
Definition filteredTestIdsOf (allTests : list TestCase) : gset string :=
  list_to_set (id <$> allTests).

(** What the orchestrator shares between attempts: the tests handed to the
    worker pool so far and the calls made to the reporter. *)
Record World := mkWorld {
  dispatched : list string;
  reported : list (string * TestResult)
}.

(** [test.results.push(testResult)]. *)
Definition pushResult (test : TestCase) (r : TestResult) : TestCase :=
  mkTestCase (title test) (location test) (testFunction test) (suite test)
    (annotations test) (results test ++ [r]).

(** [reporter.endTest(test, testResult)]. *)
Definition endTest (test : TestCase) (r : TestResult) (w : World) : World :=
  mkWorld (dispatched w) (reported w ++ [(id test, r)]).

Section RunSuites.
(** The callee of the retry loop, [runTestWorker(test, source, {timeout,
    updateSnapshot}, pool, reporter)]: whatever happens while the task
    awaits it is part of its effect on the world. *)
Variable runTestWorker :
  TestCase → string → Z * bool → World → TestResult * World.

Variable cfg : Config.
Variable updateSnapshot : bool.

(** The [for] loop over the attempts, with [n] iterations left. *)
Fixpoint attempts (n : nat) (source : string) (test : TestCase) (w : World)
  : TestCase * World :=
  match n with
  | 0 => (test, w)
  | S n' =>
      let '(r, w1) :=
        runTestWorker test source (getTimeout cfg, updateSnapshot) w in
      let testResult :=
        mkTestResult (status r) (error r) (duration r) (snapshots r) in
      let test' := pushResult test testResult in
      let w2 := endTest test' testResult w1 in
      if bool_decide (status r = expected) || bool_decide (status r = skipped)
      then (test', w2)
      else attempts n' source test' w2
  end.

(** The task that [runSuites] starts for one test of a suite. *)
Definition runSuites_task (filteredTestIds : gset string) (source : string)
    (test : TestCase) (w : World) : TestCase * World :=
  if bool_decide (id test ∈ filteredTestIds)
  then attempts (Z.to_nat (Z.max 0 (getRetries cfg) + 1)) source test w
  else (test, w).
End RunSuites.

(** Modelled from the spec: the status table of the orchestrator (the code
    that turns a worker outcome into a recorded status is not part of the
    sources). *)
Inductive WorkerOutcome := WorkerSuccess | WorkerFailure | WorkerTimeout.

Definition recordedStatus (o : WorkerOutcome) (anns : list Annotation) : TestStatus :=
  match o with
  | WorkerSuccess => if bool_decide (fail_ ∈ anns) then unexpected else expected
  | WorkerFailure => if bool_decide (fail_ ∈ anns) then expected else unexpected
  | WorkerTimeout => unexpected
  end.

(** What comes back from the pool for one dispatch. *)
Record PoolReply := mkPoolReply {
  reply_outcome : WorkerOutcome;
  reply_error : option string;
  reply_duration : Z;
  reply_snapshots : list SnapshotStatus
}.

(** Modelled from the spec: one attempt, i.e. the [runTestWorker] of five
    arguments that [runner.ts] calls and that is not part of the sources.
    A test annotated [skip] is emitted as [skipped] without dispatch; any
    other test is dispatched to the pool and its reply recorded through the
    status table.  [pool] answers a dispatch from the history of
    dispatches. *)
Definition runTestWorker_attempt (pool : list string → TestCase → PoolReply)
    (test : TestCase) (source : string) (opts : Z * bool) (w : World)
  : TestResult * World :=
  if bool_decide (skip ∈ annotations test)
  then (mkTestResult skipped None 0 [], w)
  else
    let reply := pool (dispatched w) test in
    (mkTestResult (recordedStatus (reply_outcome reply) (annotations test))
       (reply_error reply) (reply_duration reply) (reply_snapshots reply),
     mkWorld (dispatched w ++ [id test]) (reported w)).

(** *** Specification-side reading of the selection steps *)

(** The pattern [source] compiles and matches somewhere in [s]. *)
Definition patternMatches (engine : RegExpEngine) (source s : string) : bool :=
  match engine source with
  | Some search => bool_decide (is_Some (search s 0))
  | None => false
  end.

Definition patternValid (engine : RegExpEngine) (source : string) : bool :=
  bool_decide (is_Some (engine source)).

(** The filter step as the claim words it: each filter string is itself the
    regular expression. *)
Definition claimed_refineWithFilters (engine : RegExpEngine)
    (resolve : string → string) (testFilter : option (list string))
    (allTests : list TestCase) : RunStep (list TestCase) :=
  match testFilter with
  | Some ((_ :: _) as filters) =>
      if forallb (patternValid engine) filters
      then Proceed
             (List.filter
                (λ test, existsb
                   (λ filter, patternMatches engine filter
                                (resolve (default "" (filePath test))))
                   filters)
                allTests)
      else ProcessExit 1 invalidFilterMessage
  | _ => Proceed allTests
  end.

(** The statuses that end the retry loop. *)
Definition endsRetries (s : TestStatus) : bool :=
  bool_decide (s = expected) || bool_decide (s = skipped).

(** *** A small regular-expression engine for the examples

    The JavaScript engine restricted to patterns made of ordinary
    characters, [.] (any character but a line break) and a backslash
    followed by a backslash, a dot or a slash (that character, literally).
    A pattern that ends in a lone backslash is a SyntaxError.  Patterns
    outside this fragment are not used in the examples; the engine refuses
    them. *)
Inductive Atom := Lit (c : ascii) | AnyChar.

Definition isOrdinary (c : ascii) : bool :=
  let n := nat_of_ascii c in
  bool_decide (48 ≤ n ≤ 57) || bool_decide (65 ≤ n ≤ 90)
  || bool_decide (97 ≤ n ≤ 122)
  || bool_decide (n = 47) || bool_decide (n = 45) || bool_decide (n = 95)
  || bool_decide (n = 58) || bool_decide (n = 62).

Fixpoint parseAtoms (source : string) : option (list Atom) :=
  match source with
  | EmptyString => Some []
  | String c rest =>
      if bool_decide (c = backslash) then
        match rest with
        | EmptyString => None
        | String d rest' =>
            if bool_decide (d = backslash) || bool_decide (nat_of_ascii d = 46)
               || bool_decide (nat_of_ascii d = 47)
            then (Lit d ::.) <$> parseAtoms rest'
            else None
        end
      else if bool_decide (nat_of_ascii c = 46)
      then (AnyChar ::.) <$> parseAtoms rest
      else if isOrdinary c then (Lit c ::.) <$> parseAtoms rest
      else None
  end.

Definition atomMatches (a : Atom) (c : ascii) : bool :=
  match a with
  | Lit d => bool_decide (c = d)
  | AnyChar => negb (bool_decide (nat_of_ascii c = 10) || bool_decide (nat_of_ascii c = 13))
  end.

Fixpoint matchHere (atoms : list Atom) (s : string) : bool :=
  match atoms, s with
  | [], _ => true
  | a :: atoms', String c s' => atomMatches a c && matchHere atoms' s'
  | _ :: _, EmptyString => false
  end.

(** The end of the leftmost match that starts at position [i] or later;
    [skipped] counts the characters already passed. *)
Fixpoint searchFrom (atoms : list Atom) (s : string) (i skipped : nat) : option nat :=
  match i with
  | S i' =>
      match s with
      | EmptyString => None
      | String _ s' => searchFrom atoms s' i' (S skipped)
      end
  | 0 =>
      if matchHere atoms s then Some (skipped + length atoms)
      else match s with
           | EmptyString => None
           | String _ s' => searchFrom atoms s' 0 (S skipped)
           end
  end.

Definition miniEngine : RegExpEngine :=
  λ source, (λ atoms s i, searchFrom atoms s i 0) <$> parseAtoms source.

(** *** A run in the directory [/w] with one test file [a.ts] *)
Definition resolveInW : string → string := λ p, "/w/" +:+ p.

Definition fileSuite_a : Suite := mkSuite "a.ts" file (Some projectSuite0).

Definition test_in_a : TestCase :=
  mkTestCase "prompt" (mkLocation 4 1) 1 fileSuite_a [] [].

Definition skipped_in_a : TestCase :=
  mkTestCase "later" (mkLocation 9 6) 2 fileSuite_a [skip] [].

(** The filter [a\.ts] (a backslash before the dot) and the filter made of
    one backslash. *)
Definition filter_a_dot_ts : string :=
  String "a" (String backslash ".ts").

Definition filter_backslash : string := String backslash "".

(** A pool whose workers fail every attempt. *)
Definition failingPool : list string → TestCase → PoolReply :=
  λ _ _, mkPoolReply WorkerFailure (Some "Error: no prompt") 12 [].

(** A pool whose workers fail the first dispatch and pass afterwards. *)
Definition flakyPool : list string → TestCase → PoolReply :=
  λ history _,
    match history with
    | [] => mkPoolReply WorkerFailure (Some "Error: no prompt") 12 []
    | _ => mkPoolReply WorkerSuccess None 7 []
    end.

Definition noWorld : World := mkWorld [] [].

(** The index of the first result whose status ends the retry loop. *)
Fixpoint firstEnding (rs : list TestResult) : option nat :=
  match rs with
  | [] => None
  | r :: rs' => if endsRetries (status r) then Some 0 else S <$> firstEnding rs'
  end.

(** ** runner/worker.ts *)

Record WorkerResult := mkWorkerResult {
  wr_error : option string;
  passed : bool;
  wr_duration : Z
}.

(** Template-literal rendering of an integral Number. *)
Definition intToString (z : Z) : string :=
  if bool_decide (z < 0)%Z
  then "-" +:+ numberToString (Z.to_N (- z))
  else numberToString (Z.to_N z).

(** The payloads that [testWorker] emits: [{ startTime }] when it starts
    and [{ errorMessage, duration }] when the test body throws. *)
Inductive Payload :=
  | StartTimePayload (startTime : Z)
  | ErrorPayload (errorMessage : string) (duration : Z).

(** What [await poolPromise] can throw. *)
Inductive Thrown :=
  | ThrownString (e : string)
  | ThrownTimeoutError
  | ThrownError (stack : option string) (message : string)
  | ThrownOther.

(** What the pool delivers for one [pool.exec] call: payloads for the [on]
    handler, and the settlement of the promise. *)
Inductive PoolEvent :=
  | Emit (payload : Payload)
  | Fulfil
  | Reject (e : Thrown).

(** The events of one call in the order of their arrival, each with the
    time in ms since the call. *)
Definition PoolTrace := list (Z * PoolEvent).

(** The state of the promise returned by [runTestWorker]. *)
Inductive PromiseState (A : Type) :=
  | Pending
  | Resolved (a : A)
  | Rejected (reason : string).
Arguments Pending {A}.
Arguments Resolved {A} a.
Arguments Rejected {A} reason.

(** [resolve(value)]: only the first call settles the promise. *)
Definition resolve (value : WorkerResult) (p : PromiseState WorkerResult)
  : PromiseState WorkerResult :=
  match p with
  | Pending => Resolved value
  | _ => p
  end.

Definition timeoutMessage (timeout : Z) : string :=
  "Error: worker was terminated as the timeout (" +:+ intToString timeout
    +:+ " ms) as exceeded".

(** The [catch (e)] block, entered at clock time [clock]. *)
Definition runTestWorker_catch (timeout : Z) (e : Thrown) (clock startTime : Z)
    (p : PromiseState WorkerResult) : PromiseState WorkerResult :=
  let duration := (clock - startTime)%Z in
  match e with
  | ThrownString s => resolve (mkWorkerResult (Some s) false duration) p
  | ThrownTimeoutError =>
      resolve (mkWorkerResult (Some (timeoutMessage timeout)) false duration) p
  | ThrownError stack message =>
      resolve (mkWorkerResult (Some (default message stack)) false duration) p
  | ThrownOther => p
  end.

(** The [on] handler of [pool.exec].  An empty [errorMessage] and a zero
    [startTime] are falsy. *)
Definition runTestWorker_on (payload : Payload) (startTime : Z)
    (p : PromiseState WorkerResult) : Z * PromiseState WorkerResult :=
  match payload with
  | ErrorPayload errorMessage duration =>
      if bool_decide (errorMessage ≠ "")
      then (startTime, resolve (mkWorkerResult (Some errorMessage) false duration) p)
      else (startTime, p)
  | StartTimePayload t =>
      if bool_decide (t ≠ 0%Z) then (t, p) else (startTime, p)
  end.

(** The body of the promise, fed with the events of the pool.  With a
    positive [timeout], [poolPromise.timeout(timeout)] rejects the pool
    promise with a TimeoutError once [timeout] ms have passed without a
    settlement; the events of the worker that would come at that time or
    later are lost with the worker. *)
Fixpoint runTestWorker_events (timeout t0 : Z) (trace : PoolTrace)
    (startTime : Z) (p : PromiseState WorkerResult) : PromiseState WorkerResult :=
  match trace with
  | [] =>
      if bool_decide (timeout > 0)%Z
      then runTestWorker_catch timeout ThrownTimeoutError (t0 + timeout) startTime p
      else p
  | (t, ev) :: trace' =>
      if bool_decide (timeout > 0)%Z && bool_decide (timeout ≤ t)%Z
      then runTestWorker_catch timeout ThrownTimeoutError (t0 + timeout) startTime p
      else
        match ev with
        | Emit payload =>
            let '(startTime', p') := runTestWorker_on payload startTime p in
            runTestWorker_events timeout t0 trace' startTime' p'
        | Fulfil => resolve (mkWorkerResult None true (t0 + t - startTime)) p
        | Reject e => runTestWorker_catch timeout e (t0 + t) startTime p
        end
  end.

(** [runTestWorker(test, importPath, timeout, pool)], called at clock time
    [t0]; [trace] is what the pool does with the call. *)
Definition runTestWorker (timeout : Z) (t0 : Z) (trace : PoolTrace)
  : PromiseState WorkerResult :=
  runTestWorker_events timeout t0 trace t0 Pending.

(** An event that ends the attempt: the error payload, or the settlement
    of the pool promise. *)
Definition isTerminal (ev : PoolEvent) : bool :=
  match ev with
  | Emit (StartTimePayload _) => false
  | _ => true
  end.

(** No terminal event arrives before the deadline. *)
Definition silentUntil (timeout : Z) (trace : PoolTrace) : bool :=
  forallb (λ '(t, ev), bool_decide (timeout ≤ t)%Z || negb (isTerminal ev)) trace.

(** A test body that never finishes: the worker starts and nothing more
    is heard of it. *)
Definition hangingTrace : PoolTrace := [(3%Z, Emit (StartTimePayload 1003))].

(** ** test/test.ts: the declaration API *)

(** Options set with [test.use], by key. *)
Definition TestOptions := gmap string string.

(** A suite with what the declarations have put into it so far. *)
Inductive SuiteTree :=
  SuiteNode (s : Suite) (options : TestOptions) (tests : list TestCase)
            (suites : list SuiteTree).

Definition tree_suite (n : SuiteTree) : Suite :=
  match n with SuiteNode s _ _ _ => s end.
Definition tree_options (n : SuiteTree) : TestOptions :=
  match n with SuiteNode _ o _ _ => o end.
Definition tree_tests (n : SuiteTree) : list TestCase :=
  match n with SuiteNode _ _ ts _ => ts end.
Definition tree_suites (n : SuiteTree) : list SuiteTree :=
  match n with SuiteNode _ _ _ ss => ss end.

(** [globalThis]: the ambient suite and, in a worker, the registry of
    tests by id ([None] while [globalThis.tests] is undefined). *)
Record Globals := mkGlobals {
  ambient : SuiteTree;
  tests : option (gmap string TestCase)
}.

(** The calls a test file makes while it is evaluated; a location is what
    [getTestLocation()] finds for the call. *)
Inductive Decl :=
  | CallTest (title : string) (location : Location) (testFunction : TestFunction)
  | CallSkip (title : string) (location : Location) (testFunction : TestFunction)
  | CallFail (title : string) (location : Location) (testFunction : TestFunction)
  | CallUse (options : TestOptions)
  | CallDescribe (title : string) (callback : list Decl).

(** [globalThis.suite.tests.push(test)]. *)
Definition pushTest (t : TestCase) (n : SuiteTree) : SuiteTree :=
  SuiteNode (tree_suite n) (tree_options n) (tree_tests n ++ [t]) (tree_suites n).

(** [if (globalThis.tests != null) globalThis.tests[test.id] = test]. *)
Definition register (t : TestCase) (registry : option (gmap string TestCase))
  : option (gmap string TestCase) :=
  (λ m, <[id t := t]> m) <$> registry.

(** [test(title, testFunction)]. *)
Definition test (title : string) (location : Location) (testFunction : TestFunction)
    (g : Globals) : Globals :=
  let t := mkTestCase title location testFunction (tree_suite (ambient g)) [] [] in
  mkGlobals (pushTest t (ambient g)) (register t (tests g)).

(** [test.skip(title, testFunction)]. *)
Definition test_skip (title : string) (location : Location)
    (testFunction : TestFunction) (g : Globals) : Globals :=
  let t := mkTestCase title location testFunction (tree_suite (ambient g)) [skip] [] in
  mkGlobals (pushTest t (ambient g)) (register t (tests g)).

(** [test.fail(title, testFunction)]. *)
Definition test_fail (title : string) (location : Location)
    (testFunction : TestFunction) (g : Globals) : Globals :=
  let t := mkTestCase title location testFunction (tree_suite (ambient g)) [fail_] [] in
  mkGlobals (pushTest t (ambient g)) (tests g).

(** [test.use(options)]: the new keys win. *)
Definition test_use (options : TestOptions) (g : Globals) : Globals :=
  mkGlobals
    (SuiteNode (tree_suite (ambient g)) (options ∪ tree_options (ambient g))
       (tree_tests (ambient g)) (tree_suites (ambient g)))
    (tests g).

(** [test.describe(title, callback)], given what running the callback does
    to the globals: the child suite is ambient while the callback runs and
    ends up as the last child of the parent, which is ambient again. *)
Definition test_describe (title : string) (callback : Globals → Globals)
    (g : Globals) : Globals :=
  let parent := ambient g in
  let currentSuite :=
    SuiteNode (mkSuite title describe (Some (tree_suite parent)))
      (tree_options parent) [] [] in
  let g' := callback (mkGlobals currentSuite (tests g)) in
  mkGlobals
    (SuiteNode (tree_suite parent) (tree_options parent) (tree_tests parent)
       (tree_suites parent ++ [ambient g']))
    (tests g').

(** Evaluating the calls of a file, one after the other. *)
Fixpoint evalDecl (d : Decl) (g : Globals) : Globals :=
  match d with
  | CallTest title location testFunction => test title location testFunction g
  | CallSkip title location testFunction => test_skip title location testFunction g
  | CallFail title location testFunction => test_fail title location testFunction g
  | CallUse options => test_use options g
  | CallDescribe title callback =>
      test_describe title
        (λ g0, (fix evalAll (ds : list Decl) (g1 : Globals) : Globals :=
                  match ds with
                  | [] => g1
                  | d' :: ds' => evalAll ds' (evalDecl d' g1)
                  end) callback g0)
        g
  end.

Definition evalDecls (ds : list Decl) (g : Globals) : Globals :=
  foldl (λ g1 d, evalDecl d g1) g ds.

(** All the tests of a suite tree. *)
Fixpoint allTestsOf (n : SuiteTree) : list TestCase :=
  match n with
  | SuiteNode _ _ ts ss => ts ++ concat (map allTestsOf ss)
  end.

(** The worker-side [runTest], up to the lookup of the test:
    [globalThis.tests] is created if missing, the file is imported unless
    it was, and the test is looked up by id.  [modules] gives the calls
    that importing a path makes.  [None] is [undefined], on which the
    next line ([test.suite]) throws. *)
Record WorkerGlobals := mkWorkerGlobals {
  worker_tests : option (gmap string TestCase);
  importSet : gset string
}.

Definition runTest_lookup (modules : string → list Decl) (testId : string)
    (testSuite : SuiteTree) (importPath : string) (w : WorkerGlobals)
  : option TestCase * WorkerGlobals :=
  let tests0 := Some (default ∅ (worker_tests w)) in
  let '(tests1, imports1) :=
    if bool_decide (importPath ∈ importSet w)
    then (tests0, importSet w)
    else (tests (evalDecls (modules importPath) (mkGlobals testSuite tests0)),
          {[importPath]} ∪ importSet w) in
  (tests1 ≫= (λ m, m !! testId), mkWorkerGlobals tests1 imports1).

(** *** Specification-side reading of the declarations *)

(** The test cases that the calls create in a suite [s], in the order of
    the calls, those of nested describe groups included. *)
Fixpoint declaredBy (s : Suite) (d : Decl) : list TestCase :=
  match d with
  | CallTest title location testFunction =>
      [mkTestCase title location testFunction s [] []]
  | CallSkip title location testFunction =>
      [mkTestCase title location testFunction s [skip] []]
  | CallFail title location testFunction =>
      [mkTestCase title location testFunction s [fail_] []]
  | CallUse _ => []
  | CallDescribe title callback =>
      concat (map (declaredBy (mkSuite title describe (Some s))) callback)
  end.

Definition declared (s : Suite) (ds : list Decl) : list TestCase :=
  concat (map (declaredBy s) ds).

Definition declaredViaFail (t : TestCase) : bool :=
  bool_decide (fail_ ∈ annotations t).

(** The registry after the tests [ts] were stored in it in order. *)
Definition registerAll (ts : list TestCase) (m : gmap string TestCase)
  : gmap string TestCase :=
  foldl (λ m1 t, <[id t := t]> m1) m ts.

(** What a sequence of calls does to the globals: the ambient suite is the
    same suite, the registry (when there is one) has received the tests
    declared through [test] and [test.skip] in order, and the tree has
    received all the declared tests. *)
Definition evalEffect (s : Suite) (news : list TestCase) (g g' : Globals) : Prop :=
  tree_suite (ambient g') = s
  ∧ tests g'
    = registerAll (List.filter (λ t, negb (declaredViaFail t)) news) <$> tests g
  ∧ allTestsOf (ambient g') ≡ₚ allTestsOf (ambient g) ++ news.

(** *** A file that declares a test and a failing test of the same title;
    both calls got the fallback location *)
Definition sameTitleCalls : list Decl :=
  [CallTest "prompt" (mkLocation 0 0) 1; CallFail "prompt" (mkLocation 0 0) 2].

Definition failDeclared : TestCase :=
  mkTestCase "prompt" (mkLocation 0 0) 2 fileSuite_a [fail_] [].

Definition fileTree_a : SuiteTree := SuiteNode fileSuite_a ∅ [] [].

Definition freshWorker : WorkerGlobals := mkWorkerGlobals None ∅.

(** A file with one failing test only. *)
Definition onlyFailCalls : list Decl :=
  [CallDescribe "shell" [CallFail "prompt" (mkLocation 7 40) 2]].

(** ** More of test/testcase.ts *)

(** [snapshots()]: [this.results.at(-1)?.snapshots ?? []]. *)
Definition TestCase_snapshots (t : TestCase) : list SnapshotStatus :=
  match last (results t) with
  | Some r => snapshots r
  | None => []
  end.

(** ** More of runner/worker.ts *)

(** [getMockSuite]: the first loop collects, nearest first, a fresh copy of
    every ancestor that is not a describe suite (title and type; the copy
    also carries the options object, which this chain model does not
    hold). *)
Fixpoint getMockSuite_newSuites (testSuite : Suite) : list (string * SuiteType) :=
  let rest := match parentSuite testSuite with
              | Some p => getMockSuite_newSuites p
              | None => []
              end in
  if bool_decide (suite_type testSuite ≠ describe)
  then (suite_title testSuite, suite_type testSuite) :: rest
  else rest.

(** The second loop links each copy to the next one; the result is
    [newSuites[0]], which is [undefined] for an empty array. *)
Fixpoint getMockSuite_link (newSuites : list (string * SuiteType)) : option Suite :=
  match newSuites with
  | [] => None
  | (t, ty) :: rest => Some (mkSuite t ty (getMockSuite_link rest))
  end.

Definition getMockSuite (test : TestCase) : option Suite :=
  getMockSuite_link (getMockSuite_newSuites (suite test)).

(** What a test body can throw, as [testWorker] tells the cases apart. *)
Inductive Exception :=
  | ExcString (e : string)
  | ExcError (stack : option string) (message : string)
  | ExcOther.

(** How [runTest] ends in the worker. *)
Inductive BodyResult :=
  | BodyReturns
  | BodyThrows (e : Exception).

(** The [errorMessage] of the [catch] block of [testWorker]. *)
Definition testWorker_errorMessage (e : Exception) : option string :=
  match e with
  | ExcString s => Some s
  | ExcError stack message => Some (default message stack)
  | ExcOther => None
  end.

(** [testWorker], seen from the pool: the worker starts [ts] ms after the
    call made at clock time [t0] and emits its start time; [body] tells
    when and how [runTest] ends ([None]: never).  A thrown value is
    emitted when its message is truthy; the function then returns, which
    fulfils the pool promise. *)
Definition testWorker (t0 ts : Z) (body : option (Z * BodyResult)) : PoolTrace :=
  (ts, Emit (StartTimePayload (t0 + ts))) ::
  match body with
  | None => []
  | Some (te, BodyReturns) => [(te, Fulfil)]
  | Some (te, BodyThrows e) =>
      match testWorker_errorMessage e with
      | Some errorMessage =>
          if bool_decide (errorMessage ≠ "")
          then [(te, Emit (ErrorPayload errorMessage (te - ts))); (te, Fulfil)]
          else [(te, Fulfil)]
      | None => [(te, Fulfil)]
      end
  end.

(** ** runner/transform.ts *)

Definition isOneOf (c : ascii) (cs : string) : bool :=
  bool_decide (c ∈ list_ascii_of_string cs).

(** [/^\.[mc]?LANGs[x]?$/.test(ext)] for [LANG] one of [t], [j]: a dot, an
    optional [m] or [c], the two letters, an optional [x], and nothing
    else.  (Not taking the optional letter never helps: the next letter
    would have to be [t] or [j].) *)
Definition extensionPattern (lang : string) (ext : string) : bool :=
  match ext with
  | String dot rest =>
      bool_decide (dot = "."%char)
      && (let body := match rest with
                      | String c r => if isOneOf c "mc" then r else rest
                      | EmptyString => rest
                      end in
          bool_decide (body = lang +:+ "s") || bool_decide (body = lang +:+ "sx"))
  | EmptyString => false
  end.

Definition typescriptPattern : string → bool := extensionPattern "t".
Definition javascriptPattern : string → bool := extensionPattern "j".

Inductive FileType := typescript | javascript.

(** [fileType] of [transformFile]; [None] is [undefined], on which
    [transformFile] throws. *)
Definition fileType (fileExtension : string) : option FileType :=
  if typescriptPattern fileExtension then Some typescript
  else if javascriptPattern fileExtension then Some javascript
  else None.

(** [fileExtension.startsWith(".m") ? ".mjs" : ".js"], in
    [copyFilesToCache] and, for the path to import, in [run]. *)
Definition newExtension (fileExtension : string) : string :=
  if startsWith ".m" fileExtension then ".mjs" else ".js".

(** The first lines of a transformed file, as [transformFile] writes them. *)
Definition hashHeader (sourceHash : string) : string :=
  "//# hash=" +:+ sourceHash.

Definition mapHeader (hasMap : bool) (destinationFilename : string) : string :=
  if hasMap
  then newline +:+ "//# sourceMappingURL=" +:+ destinationFilename +:+ ".map"
  else "".

Definition transformedCode (sourceHash : string) (hasMap : bool)
    (destinationFilename resultCode : string) : string :=
  hashHeader sourceHash +:+ mapHeader hasMap destinationFilename
    +:+ newline +:+ newline +:+ resultCode.

Definition isLineBreak (c : ascii) : bool :=
  bool_decide (nat_of_ascii c = 10) || bool_decide (nat_of_ascii c = 13).

(** The text before the first line break. *)
Fixpoint untilLineBreak (s : string) : string :=
  match s with
  | EmptyString => EmptyString
  | String c s' => if isLineBreak c then EmptyString else String c (untilLineBreak s')
  end.

(** The first ['line'] event of [readline] on a file: none for an empty
    file (the promise of [copyFilesToCache] then stays pending). *)
Definition firstLine (content : string) : option string :=
  match content with
  | EmptyString => None
  | _ => Some (untilLineBreak content)
  end.

(** White space of [\s] among the ASCII characters. *)
Definition isWhiteSpace (c : ascii) : bool :=
  let n := nat_of_ascii c in
  bool_decide (9 ≤ n ≤ 13) || bool_decide (n = 32).

Fixpoint skipWhiteSpace (s : string) : string :=
  match s with
  | String c s' => if isWhiteSpace c then skipWhiteSpace s' else s
  | EmptyString => s
  end.

Fixpoint dropChars (n : nat) (s : string) : string :=
  match n, s with
  | S n', String _ s' => dropChars n' s'
  | _, _ => s
  end.

(** The regular expression of [copyFilesToCache] (two slashes, [#], white
    space, [hash=], then a group that takes the rest of the line), tried at
    the start of [s]: the group, when it matches.  (The white space is
    taken whole: what follows must be [h].) *)
Definition matchHashHere (s : string) : option string :=
  if startsWith "//#" s then
    match dropChars 3 s with
    | String c r =>
        if isWhiteSpace c then
          let r' := skipWhiteSpace r in
          if startsWith "hash=" r' then Some (untilLineBreak (dropChars 5 r'))
          else None
        else None
    | EmptyString => None
    end
  else None.

(** [line.match(...)?.at(1)] with that expression: the group of the
    leftmost match. *)
Fixpoint existingHash (line : string) : option string :=
  match matchHashHere line with
  | Some h => Some h
  | None =>
      match line with
      | EmptyString => None
      | String _ line' => existingHash line'
      end
  end.

(** Whether [copyFilesToCache] transforms a source file whose content
    hashes to [fileHash]: it returns early when the transformed file exists
    and its first line carries the same hash.  [cached] is the content of
    the transformed file, if it exists; [None] as a result means that no
    line is ever read. *)
Definition needsTransform (cached : option string) (fileHash : string) : option bool :=
  match cached with
  | None => Some true
  | Some content =>
      match firstLine content with
      | None => None
      | Some line => Some (negb (bool_decide (existingHash line = Some fileHash)))
      end
  end.

(** *** Specification-side notions for the properties below *)

(** [s'] is [s] or a describe suite nested, directly or not, in [s]. *)
Inductive describesOver (s : Suite) : Suite → Prop :=
  | describesOver_here : describesOver s s
  | describesOver_nested title s' :
      describesOver s s' →
      describesOver s (mkSuite title describe (Some s')).

(** No suite on the way to the root is a describe suite. *)
Definition describeFree (s : Suite) : Prop :=
  Forall (λ a, suite_type a ≠ describe) (ancestors s).

(** The time [t] (ms since the call) comes before the timeout fires, if it
    fires at all. *)
Definition beforeDeadline (timeout t : Z) : bool :=
  bool_decide (timeout ≤ 0 ∨ t < timeout)%Z.

(** The title and type of a suite. *)
Definition suiteKey (s : Suite) : string * SuiteType :=
  (suite_title s, suite_type s).

(** *** More examples *)
Definition only_in_a : TestCase :=
  mkTestCase "first" (mkLocation 2 1) 3 fileSuite_a [only] [].

(** A file with a group, a skipped test and a failing one. *)
Definition groupCalls : list Decl :=
  [CallTest "starts" (mkLocation 3 1) 1;
   CallDescribe "shell"
     [CallUse {["rows" := "40"]};
      CallSkip "prompt" (mkLocation 6 3) 2;
      CallFail "exit" (mkLocation 9 3) 3]].

(** The options of the ambient suite after the calls [ds]: only the
    [test.use] calls made directly in the suite count. *)
Definition optionsAfter (ds : list Decl) (o : TestOptions) : TestOptions :=
  foldl (λ o1 d, match d with CallUse o' => o' ∪ o1 | _ => o1 end) o ds.

(** Every entry of the registry is stored under the id of its test. *)
Definition keyedById (registry : option (gmap string TestCase)) : Prop :=
  ∀ m k t, registry = Some m → m !! k = Some t → id t = k.

(** The text holds no line break (as a hexadecimal digest does). *)
Fixpoint singleLine (s : string) : bool :=
  match s with
  | EmptyString => true
  | String c s' => negb (isLineBreak c) && singleLine s'
  end.

(** ** More of runner/runner.ts *)

(** The [while (suites.length != 0)] loop of [runSuites]: the tests for
    which a task is created, in the order of their creation.  The queue
    starts as a copy of [allSuites]; each round shifts a suite off it, makes
    the tasks of its tests and pushes its child suites.  [fuel] bounds the
    number of rounds ([None]: not enough). *)
Fixpoint runSuites_walk (fuel : nat) (suites : list SuiteTree)
  : option (list TestCase) :=
  match suites with
  | [] => Some []
  | suite :: rest =>
      match fuel with
      | 0 => None
      | S fuel' =>
          (λ later, tree_tests suite ++ later)
            <$> runSuites_walk fuel' (rest ++ tree_suites suite)
      end
  end.

(** The number of suites in a tree. *)
Fixpoint suiteCount (n : SuiteTree) : nat :=
  match n with
  | SuiteNode _ _ _ ss => S (list_sum (map suiteCount ss))
  end.

(** A file suite with a test, a group with two tests and an empty group. *)
Definition sampleTree : SuiteTree :=
  SuiteNode fileSuite_a ∅ [test_in_a]
    [SuiteNode (mkSuite "shell" describe (Some fileSuite_a)) ∅
       [mkTestCase "prompt" (mkLocation 6 3) 2
          (mkSuite "shell" describe (Some fileSuite_a)) [skip] [];
        mkTestCase "exit" (mkLocation 9 3) 3
          (mkSuite "shell" describe (Some fileSuite_a)) [fail_] []] [];
     SuiteNode (mkSuite "later" describe (Some fileSuite_a)) ∅ [] []].

(** ** The rows of the status table for a call of [runTestWorker]

    Modelled from the spec: which row of the status table each way of
    settling the call stands for (this version of the worker hands back
    [passed] only).  A fulfilled pool promise is a success; an error
    payload and a thrown string or Error are failures; the TimeoutError of
    the pool is the timeout.  The functions below are [resolve],
    [runTestWorker_catch], [runTestWorker_on] and [runTestWorker_events]
    again, with the row kept beside the value that settles the promise. *)
Definition resolveAs (o : WorkerOutcome) (value : WorkerResult)
    (p : PromiseState (WorkerOutcome * WorkerResult))
  : PromiseState (WorkerOutcome * WorkerResult) :=
  match p with
  | Pending => Resolved (o, value)
  | _ => p
  end.

Definition classified_catch (timeout : Z) (e : Thrown) (clock startTime : Z)
    (p : PromiseState (WorkerOutcome * WorkerResult))
  : PromiseState (WorkerOutcome * WorkerResult) :=
  let duration := (clock - startTime)%Z in
  match e with
  | ThrownString s =>
      resolveAs WorkerFailure (mkWorkerResult (Some s) false duration) p
  | ThrownTimeoutError =>
      resolveAs WorkerTimeout
        (mkWorkerResult (Some (timeoutMessage timeout)) false duration) p
  | ThrownError stack message =>
      resolveAs WorkerFailure
        (mkWorkerResult (Some (default message stack)) false duration) p
  | ThrownOther => p
  end.

Definition classified_on (payload : Payload) (startTime : Z)
    (p : PromiseState (WorkerOutcome * WorkerResult))
  : Z * PromiseState (WorkerOutcome * WorkerResult) :=
  match payload with
  | ErrorPayload errorMessage duration =>
      if bool_decide (errorMessage ≠ "")
      then (startTime,
            resolveAs WorkerFailure
              (mkWorkerResult (Some errorMessage) false duration) p)
      else (startTime, p)
  | StartTimePayload t =>
      if bool_decide (t ≠ 0%Z) then (t, p) else (startTime, p)
  end.

Fixpoint classified_events (timeout t0 : Z) (trace : PoolTrace) (startTime : Z)
    (p : PromiseState (WorkerOutcome * WorkerResult))
  : PromiseState (WorkerOutcome * WorkerResult) :=
  match trace with
  | [] =>
      if bool_decide (timeout > 0)%Z
      then classified_catch timeout ThrownTimeoutError (t0 + timeout) startTime p
      else p
  | (t, ev) :: trace' =>
      if bool_decide (timeout > 0)%Z && bool_decide (timeout ≤ t)%Z
      then classified_catch timeout ThrownTimeoutError (t0 + timeout) startTime p
      else
        match ev with
        | Emit payload =>
            let '(startTime', p') := classified_on payload startTime p in
            classified_events timeout t0 trace' startTime' p'
        | Fulfil =>
            resolveAs WorkerSuccess
              (mkWorkerResult None true (t0 + t - startTime)) p
        | Reject e => classified_catch timeout e (t0 + t) startTime p
        end
  end.

Definition runTestWorker_classified (timeout t0 : Z) (trace : PoolTrace)
  : PromiseState (WorkerOutcome * WorkerResult) :=
  classified_events timeout t0 trace t0 Pending.

(** The promise without the row. *)
Definition forgetOutcome (p : PromiseState (WorkerOutcome * WorkerResult))
  : PromiseState WorkerResult :=
  match p with
  | Pending => Pending
  | Resolved (_, r) => Resolved r
  | Rejected reason => Rejected reason
  end.

(** The status recorded for the call of a test with the annotations
    [anns], once the call has resolved. *)
Definition recordedStatusOfCall (timeout t0 : Z) (trace : PoolTrace)
    (anns : list Annotation) : option TestStatus :=
  match runTestWorker_classified timeout t0 trace with
  | Resolved (o, _) => Some (recordedStatus o anns)
  | _ => None
  end.

(** The number that a text of decimal digits denotes ([None] when the
    text is empty or holds another character). *)
Definition decimalValue (digits : string) : option N :=
  N.of_uint <$> NilZero.uint_of_string digits.

(** *** A test with [only] and another test with the same id

    [test.only("prompt", f)] and [test("prompt", g)] in [a.ts], both with
    the fallback location. *)
Definition only_prompt : TestCase :=
  mkTestCase "prompt" (mkLocation 0 0) 1 fileSuite_a [only] [].

Definition plain_prompt : TestCase :=
  mkTestCase "prompt" (mkLocation 0 0) 2 fileSuite_a [] [].

(** * Theorems *)

Lemma Suite_chain_ind (P : Suite → Prop) :
  (∀ t ty, P (mkSuite t ty None)) →
  (∀ t ty p, P p → P (mkSuite t ty (Some p))) →
  ∀ s, P s.
Proof.
  intros Hroot Hstep. fix IH 1.
  intros [t ty [p|]]; [apply Hstep, IH | apply Hroot].
Qed.

(** ** testcase.ts: outcome *)

Lemma last_cons_any (x a b : TestStatus) l :
  List.last (x :: l) a = List.last (x :: l) b.
Proof.
  revert x. induction l as [|y l IH]; intros x; [done|].
  change (List.last (y :: l) a = List.last (y :: l) b). apply IH.
Qed.

Lemma last_cons_default (b a : TestStatus) l :
  List.last (b :: l) a = List.last l b.
Proof. destruct l as [|x l]; [done|]. exact (last_cons_any x a b l). Qed.

Lemma spec_outcome_step a b l :
  spec_outcome (a :: b :: l)
  = if flaky_transition a b then flaky else spec_outcome (b :: l).
Proof.
  unfold spec_outcome.
  change (has_flaky_transition (a :: b :: l))
    with (flaky_transition a b || has_flaky_transition (b :: l)).
  rewrite last_cons_default.
  by destruct (flaky_transition a b), (has_flaky_transition (b :: l)).
Qed.

Lemma outcome_loop_spec st rest :
  outcome_loop st rest = spec_outcome (st :: map status rest).
Proof.
  revert st. induction rest as [|r rest IH]; intros st; [done|].
  cbn [outcome_loop map]. rewrite spec_outcome_step, IH.
  by destruct st, (status r).
Qed.

(** A flaky transition is found exactly when two consecutive statuses form
    one. *)
Lemma has_flaky_transition_iff sts :
  has_flaky_transition sts = true ↔
  ∃ pre a b post, sts = pre ++ a :: b :: post ∧ flaky_transition a b = true.
Proof.
  induction sts as [|a [|b tl] IH].
  - split; [done|]. intros (pre & a & b & post & E & _). by destruct pre.
  - split; [done|]. intros (pre & x & b & post & E & _).
    destruct pre as [|? [|? ?]]; done.
  - change (has_flaky_transition (a :: b :: tl))
      with (flaky_transition a b || has_flaky_transition (b :: tl)).
    rewrite orb_true_iff, IH. split.
    + intros [H | (pre & x & y & post & E & H)].
      * by exists [], a, b, tl.
      * exists (a :: pre), x, y, post. by rewrite E.
    + intros (pre & x & y & post & E & H). destruct pre as [|p pre].
      * left. by simplify_eq/=.
      * right. exists pre, x, y, post. by simplify_eq/=.
Qed.

(** C1. [outcome()] is [skipped] on an empty result list; otherwise it is
    [flaky] when some pair of consecutive results goes from [unexpected] to
    [expected] or from [expected] to a status other than [expected], and the
    status of the last result when there is no such pair. *)
Theorem outcome_fold (t : TestCase) :
  outcome t = spec_outcome (map status (results t)).
Proof.
  unfold outcome. destruct (results t) as [|r0 rest]; [done|].
  apply outcome_loop_spec.
Qed.

Example outcome_unexpected_then_expected t r1 r2 :
  results t = [r1; r2] → status r1 = unexpected → status r2 = expected →
  outcome t = flaky.
Proof. intros E H1 H2. unfold outcome. by rewrite E; cbn; rewrite H1, H2. Qed.

Example outcome_expected_then_unexpected t r1 r2 :
  results t = [r1; r2] → status r1 = expected → status r2 = unexpected →
  outcome t = flaky.
Proof. intros E H1 H2. unfold outcome. by rewrite E; cbn; rewrite H1, H2. Qed.

Example outcome_single_expected t r1 :
  results t = [r1] → status r1 = expected → outcome t = expected.
Proof. intros E H1. unfold outcome. by rewrite E. Qed.

Example outcome_no_results t : results t = [] → outcome t = skipped.
Proof. intros E. unfold outcome. by rewrite E. Qed.

(** ** testcase.ts: titlePath and id *)

Lemma length_zero_empty (s : string) : String.length s = 0 ↔ s = "".
Proof. by destruct s. Qed.

Lemma titlePath_push_emitted r s titles :
  titlePath_push r s titles = titles ++ option_list (emitted r s).
Proof.
  unfold titlePath_push, emitted.
  destruct (suite_type s); cbn; rewrite ?app_nil_r; try done.
  destruct (suite_title s); cbn; by rewrite ?app_nil_r.
Qed.

Lemma titlePath_loop_emitted r s titles :
  titlePath_loop r s titles = titles ++ omap (emitted r) (ancestors s).
Proof.
  revert titles. induction s as [t ty | t ty p IH] using Suite_chain_ind;
    intros titles; cbn [titlePath_loop ancestors parentSuite];
    rewrite ?IH, titlePath_push_emitted; cbn [omap list_omap];
    destruct (emitted _ _); cbn; by rewrite <- ?app_assoc, ?app_nil_r.
Qed.

(** The title path read with the root first: the prefix contributed by the
    ancestors of a suite, then what the suite itself emits. *)
Lemma titlePath_root_first r t ty p titles :
  rev (titlePath_loop r (mkSuite t ty (Some p)) titles)
  = rev (titlePath_loop r p []) ++ rev (titlePath_push r (mkSuite t ty (Some p)) titles).
Proof.
  cbn [titlePath_loop parentSuite].
  by rewrite !titlePath_loop_emitted, app_nil_l, rev_app_distr.
Qed.

(** C2 (as amended). The id of a test is the concatenation, with no
    separator, of its title path: the ancestors are walked root-ward, a
    project with a non-empty title emits its title in square brackets, a
    describe suite its title, the file suite its title followed by the
    declaration row twice, each after a colon; the sequence is reversed and
    the title of the test is appended. *)
Theorem id_is_title_path_concatenation (t : TestCase) :
  id t = join (spec_titlePath t).
Proof.
  unfold id, titlePath, spec_titlePath.
  by rewrite titlePath_loop_emitted, app_nil_l.
Qed.

Example id_test_a_bc : id test_a_bc = "a.test.ts:0:0abc".
Proof. reflexivity. Qed.

(** Two distinct tests, with different titles, in different describe
    groups, share the id ["a.test.ts:0:0abc"]: the title path is joined
    without separators. *)
Lemma distinct_tests_share_id :
  test_a_bc ≠ test_ab_c ∧ id test_a_bc = id test_ab_c.
Proof. split; [discriminate | reflexivity]. Qed.

(** ** Strings *)

Lemma startsWith_spec p s :
  startsWith p s = true ↔ ∃ post, s = p +:+ post.
Proof.
  revert s. induction p as [|a p IH]; intros s; cbn.
  - split; [intros _; by exists s | done].
  - destruct s as [|b s].
    + split; [done | intros [post E]; discriminate].
    + rewrite andb_true_iff, bool_decide_eq_true, IH. split.
      * intros [-> [post ->]]. by exists post.
      * intros [post E]. injection E as -> ->. eauto.
Qed.

(** [includes] is substring containment. *)
Lemma includes_spec s p :
  includes s p = true ↔ ∃ pre post, s = pre +:+ p +:+ post.
Proof.
  induction s as [|c s IH]; cbn [includes]; rewrite orb_true_iff, startsWith_spec.
  - split.
    + intros [[post E] | ?]; [|done]. by exists "", post.
    + intros (pre & post & E). left. destruct pre; [|discriminate].
      by exists post.
  - rewrite IH. split.
    + intros [[post E] | (pre & post & E)].
      * by exists "", post.
      * exists (String c pre), post. by rewrite E.
    + intros (pre & post & E). destruct pre as [|c' pre].
      * left. by exists post.
      * right. injection E as -> E. by exists pre, post.
Qed.

Lemma append_assoc (a b c : string) : (a +:+ b) +:+ c = a +:+ (b +:+ c).
Proof.
  induction a as [|x a IH]; [done|].
  change (String x ((a +:+ b) +:+ c) = String x (a +:+ (b +:+ c))).
  by rewrite IH.
Qed.

Lemma join_cons x l : join (x :: l) = x +:+ join l.
Proof. reflexivity. Qed.

Lemma join_app l1 l2 : join (l1 ++ l2) = join l1 +:+ join l2.
Proof.
  induction l1 as [|x l1 IH]; [done|].
  change (join (x :: (l1 ++ l2)) = join (x :: l1) +:+ join l2).
  by rewrite !join_cons, IH, append_assoc.
Qed.

(** Rendering a buffer gives its cells, row after row, back to back. *)
Lemma render_cells buffer : render buffer = join (concat buffer).
Proof.
  unfold render. induction buffer as [|r buffer IH]; [done|].
  change (join (join r :: map join buffer) = join (r ++ concat buffer)).
  by rewrite join_cons, join_app, IH.
Qed.

(** ** utils/poll and toHaveValue *)

Lemma poll_loop_first callback delay isNot (sleeps : nat) st (k : nat) :
  k ≤ sleeps →
  (∀ j, j < k → sampleResult callback delay j st = isNot) →
  sampleResult callback delay k st ≠ isNot →
  poll_loop callback delay isNot sleeps st
  = callback (sampleState callback delay k st).
Proof.
  revert sleeps st. induction k as [|k IH]; intros sleeps st Hk Hbefore Hat.
  - unfold sampleResult in Hat. cbn in Hat.
    destruct sleeps; cbn; destruct (callback st) as [res st'];
      cbn in Hat; by rewrite bool_decide_eq_true_2.
  - destruct sleeps as [|sleeps]; [lia|].
    pose proof (Hbefore 0 ltac:(lia)) as H0. unfold sampleResult in H0.
    cbn in H0. cbn [poll_loop sampleState].
    destruct (callback st) as [res st'] eqn:E. cbn in H0. subst res.
    rewrite bool_decide_eq_false_2 by (intros ?; done).
    cbn [snd]. apply IH; [lia| |].
    + intros j Hj. specialize (Hbefore (S j) ltac:(lia)).
      unfold sampleResult in *. cbn [sampleState] in Hbefore.
      by rewrite E in Hbefore.
    + unfold sampleResult in *. cbn [sampleState] in Hat.
      by rewrite E in Hat.
Qed.

Lemma poll_loop_deadline callback delay isNot (sleeps : nat) st :
  (∀ j, j ≤ sleeps → sampleResult callback delay j st = isNot) →
  poll_loop callback delay isNot sleeps st
  = callback (sampleState callback delay sleeps st).
Proof.
  revert st. induction sleeps as [|sleeps IH]; intros st Hall.
  - cbn. destruct (callback st) as [res st']. by case_bool_decide.
  - pose proof (Hall 0 ltac:(lia)) as H0. unfold sampleResult in H0.
    cbn in H0. cbn [poll_loop sampleState].
    destruct (callback st) as [res st'] eqn:E. cbn in H0. subst res.
    rewrite bool_decide_eq_false_2 by (intros ?; done).
    cbn [snd]. apply IH. intros j Hj.
    specialize (Hall (S j) ltac:(lia)).
    unfold sampleResult in *. cbn [sampleState] in Hall.
    by rewrite E in Hall.
Qed.

Lemma toHaveValue_callback_now screen options st :
  now (toHaveValue_callback screen options st).2 = now st.
Proof.
  unfold toHaveValue_callback. destruct (expectedNow st) as [s|r]; [done|].
  by destruct (RegExp_test r _).
Qed.

(** Sample number [k] is taken [k * delay] ms after the call. *)
Lemma sampleState_now screen options delay k st :
  now (sampleState (toHaveValue_callback screen options) delay k st)
  = (now st + Z.of_nat k * delay)%Z.
Proof.
  revert st. induction k as [|k IH]; intros st; cbn [sampleState].
  - lia.
  - rewrite IH. cbn [now]. rewrite toHaveValue_callback_now. lia.
Qed.

Lemma toHaveValue_message_passed chalk isNot pass expected :
  pass ≠ isNot → toHaveValue_message chalk isNot pass expected = "passed".
Proof. by destruct pass, isNot. Qed.

Lemma forallb_seq_lt (f : nat → bool) (k : nat) :
  forallb f (seq 0 k) = true → ∀ j, j < k → f j = true.
Proof.
  rewrite forallb_forall. intros H j Hj. apply H, in_seq. lia.
Qed.

(** C3. [toHaveValue] samples the screen at the call and then every 50 ms
    for as long as the deadline [options.timeout] (by default the expect
    timeout of the configuration) allows; a sample renders the full buffer
    when [options.full] is [true] and the viewable buffer otherwise, as the
    cells of all rows back to back, and looks for [expected] in it by
    substring containment for a string and by a RegExp test for a regular
    expression; the matcher succeeds at the first sample that finds it. *)
Theorem toHaveValue_polls_until_found cfg chalk screen expected options (k : nat) :
  let callback := toHaveValue_callback screen options in
  let timeout := default (getExpectTimeout cfg) (options ≫= opt_timeout) in
  let st0 := mkMatcherState 0 expected in
  let call := toHaveValue cfg chalk false screen expected options in
  (Z.of_nat k * 50 ≤ timeout)%Z →
  forallb (λ j, negb (sampleResult callback 50 j st0)) (seq 0 k) = true →
  sampleResult callback 50 k st0 = true →
  (pass call.1 = true ∧ message call.1 = "passed"
   ∧ assertionSucceeds false call.1 = true
   ∧ now call.2 = (Z.of_nat k * 50)%Z)
  ∧ (∀ j : nat, now (sampleState callback 50 j st0) = (Z.of_nat j * 50)%Z)
  ∧ (∀ terminal,
       selectedBuffer options terminal
       = if bool_decide (options ≫= opt_full = Some true)
         then getBuffer terminal else getViewableBuffer terminal)
  ∧ (∀ st s, expectedNow st = ExpString s →
       callback st
       = (includes (join (concat (selectedBuffer options (screen (now st))))) s, st))
  ∧ (∀ st r, expectedNow st = ExpRegExp r →
       callback st
       = ((RegExp_test r (join (concat (selectedBuffer options (screen (now st)))))).1,
          mkMatcherState (now st)
            (ExpRegExp (RegExp_test r
               (join (concat (selectedBuffer options (screen (now st)))))).2))).
Proof.
  intros callback timeout st0 call Hk Hbefore Hat.
  assert (Hnow : ∀ j : nat,
    now (sampleState callback 50 j st0) = (Z.of_nat j * 50)%Z).
  { intros j. unfold callback. rewrite sampleState_now. cbn. lia. }
  split; [|split; [done|split; [|split]]].
  - assert (Hpoll : poll callback 50 timeout false st0
                    = callback (sampleState callback 50 k st0)).
    { unfold poll. apply poll_loop_first.
      - apply Nat2Z.inj_le. rewrite Z2Nat.id.
        + apply Z.div_le_lower_bound; lia.
        + apply Z.div_pos; lia.
      - intros j Hj. pose proof (forallb_seq_lt _ _ Hbefore j Hj) as H.
        by apply negb_true_iff in H.
      - by rewrite Hat. }
    unfold call, toHaveValue. fold callback timeout st0. rewrite Hpoll.
    unfold sampleResult in Hat.
    destruct (callback (sampleState callback 50 k st0)) as [res st] eqn:E.
    cbn in Hat. subst res. cbn. repeat split.
    replace st with (callback (sampleState callback 50 k st0)).2
      by (by rewrite E).
    unfold callback at 1. by rewrite toHaveValue_callback_now, Hnow.
  - intros terminal. unfold selectedBuffer.
    by destruct (options ≫= opt_full) as [[]|].
  - intros st s Hs. unfold callback, toHaveValue_callback.
    by rewrite Hs, render_cells.
  - intros st r Hr. unfold callback, toHaveValue_callback.
    rewrite Hr, render_cells. by destruct (RegExp_test r _).
Qed.

Lemma toHaveValue_polls_until_found_witness :
  let call := toHaveValue defaultConfig plainChalk false latePromptScreen
                (ExpString ">") None in
  pass call.1 = true ∧ now call.2 = 150%Z.
Proof.
  pose proof (toHaveValue_polls_until_found defaultConfig plainChalk
                latePromptScreen (ExpString ">") None 3) as H.
  cbv zeta in H. destruct H as [(Hpass & _ & _ & Hnow) _].
  - vm_compute. discriminate.
  - reflexivity.
  - reflexivity.
  - split; [exact Hpass | exact Hnow].
Defined.

(** When none of the samples that the deadline allows finds [expected],
    the positive matcher fails. *)
Lemma toHaveValue_fails_at_deadline cfg chalk screen expected options :
  let callback := toHaveValue_callback screen options in
  let timeout := default (getExpectTimeout cfg) (options ≫= opt_timeout) in
  let st0 := mkMatcherState 0 expected in
  (∀ j : nat, j ≤ Z.to_nat (timeout / 50) →
     sampleResult callback 50 j st0 = false) →
  pass (toHaveValue cfg chalk false screen expected options).1 = false.
Proof.
  intros callback timeout st0 Hall.
  unfold toHaveValue. fold callback timeout st0. unfold poll.
  rewrite poll_loop_deadline by done.
  specialize (Hall (Z.to_nat (timeout / 50)) ltac:(lia)).
  unfold sampleResult in Hall.
  by destruct (callback (sampleState callback 50 _ st0)) as [res st].
Qed.

(** ** Inversion *)

Lemma stateless_callback screen options st :
  stateless (expectedNow st) = true →
  (toHaveValue_callback screen options st).2 = st.
Proof.
  destruct st as [t [s|r]]; cbn; [done|].
  intros Hr. apply negb_true_iff in Hr.
  unfold toHaveValue_callback, RegExp_test. cbn. by rewrite Hr.
Qed.

Lemma stable_callback screen options st1 st2 :
  (∀ t, screen t = screen 0%Z) →
  stateless (expectedNow st1) = true →
  expectedNow st1 = expectedNow st2 →
  (toHaveValue_callback screen options st1).1
  = (toHaveValue_callback screen options st2).1.
Proof.
  intros Hstable Hs E. unfold toHaveValue_callback.
  rewrite (Hstable (now st1)), (Hstable (now st2)), <- E.
  destruct (expectedNow st1) as [s|r]; [done|].
  cbn in Hs. apply negb_true_iff in Hs.
  unfold RegExp_test. by rewrite Hs.
Qed.

(** On a screen that does not change, every poll with a stateless
    [expected] hands back the value of the first sample. *)
Lemma poll_loop_stable screen options isNot (sleeps : nat) st :
  (∀ t, screen t = screen 0%Z) →
  stateless (expectedNow st) = true →
  (poll_loop (toHaveValue_callback screen options) 50 isNot sleeps st).1
  = (toHaveValue_callback screen options st).1.
Proof.
  intros Hstable. revert st.
  induction sleeps as [|sleeps IH]; intros st Hs; cbn [poll_loop].
  - destruct (toHaveValue_callback screen options st) as [res st'].
    by case_bool_decide.
  - pose proof (stateless_callback screen options st Hs) as Hst.
    destruct (toHaveValue_callback screen options st) as [res st'] eqn:E.
    cbn in Hst. subst st'. case_bool_decide; [done|].
    rewrite IH by done.
    rewrite (stable_callback screen options _ st) by done.
    by rewrite E.
Qed.

(** On a screen that does not change, and for an expected value that is a
    string or a regular expression without the [g] and [y] flags,
    [toHaveValue] and [not.toHaveValue] end with the same sampled value,
    which the positive assertion needs to be true and the negated one to
    be false: exactly one of the two succeeds, never both. *)
Theorem toHaveValue_inversion_duality cfg chalk screen expected options :
  let positive := (toHaveValue cfg chalk false screen expected options).1 in
  let negated := (toHaveValue cfg chalk true screen expected options).1 in
  stateless expected = true →
  (∀ t, screen t = screen 0%Z) →
  pass positive = pass negated
  ∧ assertionSucceeds false positive = negb (assertionSucceeds true negated)
  ∧ ¬ (assertionSucceeds false positive = true
       ∧ assertionSucceeds true negated = true).
Proof.
  intros positive negated Hs Hstable.
  assert (E : pass positive = pass negated).
  { unfold positive, negated, toHaveValue, poll.
    pose proof (poll_loop_stable screen options false
      (Z.to_nat (default (getExpectTimeout cfg) (options ≫= opt_timeout) / 50))
      (mkMatcherState 0 expected) Hstable Hs) as Hp.
    pose proof (poll_loop_stable screen options true
      (Z.to_nat (default (getExpectTimeout cfg) (options ≫= opt_timeout) / 50))
      (mkMatcherState 0 expected) Hstable Hs) as Hn.
    destruct (poll_loop _ 50 false _ _) as [p1 s1].
    destruct (poll_loop _ 50 true _ _) as [p2 s2].
    cbn in *. congruence. }
  unfold assertionSucceeds. rewrite E.
  split; [done|]. destruct (pass negated); cbn; split; try done.
  - intros [? ?]; done.
  - intros [? ?]; done.
Qed.

Lemma toHaveValue_inversion_duality_witness :
  assertionSucceeds false
    (toHaveValue defaultConfig plainChalk false stableScreen (ExpString ">") None).1
  = negb (assertionSucceeds true
    (toHaveValue defaultConfig plainChalk true stableScreen (ExpString ">") None).1).
Proof.
  pose proof (toHaveValue_inversion_duality defaultConfig plainChalk
                stableScreen (ExpString ">") None) as H.
  cbv zeta in H. destruct H as (_ & H & _).
  - reflexivity.
  - intros t. reflexivity.
  - exact H.
Defined.

(** C9. The code at the failing input: the screen does not change and
    shows [>] once, the expected value is the regular expression [>] with
    the [g] flag.  The callback calls [test] on the same RegExp at every
    sample and [lastIndex] alternates, so the positive matcher succeeds at
    the first sample and the negated matcher at the second: both
    assertions succeed, where the inversion duality says that they
    cannot. *)
Lemma global_regexp_both_succeed :
  (∀ t, stableScreen t = stableScreen 0%Z)
  ∧ assertionSucceeds false
      (toHaveValue defaultConfig plainChalk false stableScreen
         (ExpRegExp (literalRegExp ">" true)) None).1 = true
  ∧ assertionSucceeds true
      (toHaveValue defaultConfig plainChalk true stableScreen
         (ExpRegExp (literalRegExp ">" true)) None).1 = true.
Proof. split; [done|]. split; vm_compute; reflexivity. Qed.

(** ** runner.ts: the selection pipeline *)

Lemma find_existsb {A} (p : A → bool) (l : list A) :
  is_Some (List.find p l) ↔ existsb p l = true.
Proof.
  induction l as [|x l IH]; cbn.
  - split; [intros [? ?]; done | done].
  - destruct (p x); cbn; [|done]. split; eauto.
Qed.

Lemma existsb_hasOnly allTests :
  existsb hasOnly allTests = true
  ↔ ∃ t, t ∈ allTests ∧ only ∈ annotations t.
Proof.
  rewrite existsb_exists. unfold hasOnly. split.
  - intros (t & Ht & Ho). exists t.
    by rewrite list_elem_of_In, <- (bool_decide_eq_true (only ∈ annotations t)).
  - intros (t & Ht & Ho). exists t.
    by rewrite <- list_elem_of_In, bool_decide_eq_true.
Qed.

Lemma elem_of_List_filter {A} (p : A → bool) (l : list A) (x : A) :
  x ∈ List.filter p l ↔ x ∈ l ∧ p x = true.
Proof. by rewrite !list_elem_of_In, filter_In. Qed.

Lemma refineWithOnly_existsb (allTests : list TestCase) :
  refineWithOnly allTests
  = if existsb hasOnly allTests then List.filter hasOnly allTests else allTests.
Proof.
  unfold refineWithOnly.
  pose proof (find_existsb hasOnly allTests) as H.
  destruct (List.find hasOnly allTests) as [t|].
  - by rewrite (proj1 H).
  - destruct (existsb hasOnly allTests); [|done].
    destruct (proj2 H eq_refl); done.
Qed.

Lemma RegExp_new_test engine source s :
  match RegExp_new engine source with
  | Some pattern => (RegExp_test pattern s).1 = patternMatches engine source s
  | None => patternValid engine source = false
  end.
Proof.
  unfold RegExp_new, patternMatches, patternValid.
  by destruct (engine source) as [search|].
Qed.

Lemma compilePatterns_spec engine filters :
  match compilePatterns engine filters with
  | Some patterns =>
      forallb (λ f, patternValid engine (doubleBackslashes f)) filters = true
      ∧ ∀ s, existsb (λ pattern, (RegExp_test pattern s).1) patterns
             = existsb (λ f, patternMatches engine (doubleBackslashes f) s) filters
  | None =>
      forallb (λ f, patternValid engine (doubleBackslashes f)) filters = false
  end.
Proof.
  unfold compilePatterns. induction filters as [|f filters IH]; cbn; [done|].
  pose proof (RegExp_new_test engine (doubleBackslashes f)) as Hf.
  destruct (RegExp_new engine (doubleBackslashes f)) as [pattern|] eqn:E; cbn.
  - assert (patternValid engine (doubleBackslashes f) = true) as ->.
    { unfold RegExp_new in E. unfold patternValid.
      destruct (engine _); [|done]. apply bool_decide_eq_true. eauto. }
    destruct (mapM _ filters) as [patterns|]; cbn; [|done].
    destruct IH as [IH1 IH2]. split; [done|].
    intros s. by rewrite Hf, IH2.
  - by rewrite (Hf "").
Qed.

(** C7 (as amended). With a non-empty [testFilter], every backslash of each
    filter string is doubled and the result is compiled as a regular
    expression.  If all of them compile, exactly the tests whose resolved
    file path is matched by at least one of the compiled patterns are kept;
    if one does not compile, the process exits with code 1 after the
    invalid-filter diagnostic.  Without filters nothing changes. *)
Theorem test_filter_step engine resolve testFilter (allTests : list TestCase) :
  refineWithFilters engine resolve testFilter allTests
  = match testFilter with
    | Some ((_ :: _) as filters) =>
        if forallb (λ f, patternValid engine (doubleBackslashes f)) filters
        then Proceed
               (List.filter
                  (λ test, existsb
                     (λ f, patternMatches engine (doubleBackslashes f)
                             (resolve (default "" (filePath test))))
                     filters)
                  allTests)
        else ProcessExit 1 invalidFilterMessage
    | _ => Proceed allTests
    end.
Proof.
  unfold refineWithFilters. destruct testFilter as [[|f fs]|]; try done.
  pose proof (compilePatterns_spec engine (f :: fs)) as H.
  destruct (compilePatterns engine (f :: fs)) as [patterns|].
  - destruct H as [-> H]. f_equal. apply filter_ext. intros test.
    rewrite <- H.
    destruct (existsb _ patterns) eqn:E.
    + apply bool_decide_eq_true. by apply find_existsb.
    + apply bool_decide_eq_false. rewrite find_existsb. by rewrite E.
  - by rewrite H.
Qed.

Example claimed_filter_keeps_a_ts :
  claimed_refineWithFilters miniEngine resolveInW (Some [filter_a_dot_ts])
    [test_in_a] = Proceed [test_in_a].
Proof. reflexivity. Qed.

(** The filter [a\.ts] is a regular expression that matches the resolved
    path [/w/a.ts] of the only test, yet the test is dropped; a lone
    backslash is not a regular expression, yet the run goes on. *)
Lemma filter_string_is_not_the_pattern :
  (patternMatches miniEngine filter_a_dot_ts
     (resolveInW (default "" (filePath test_in_a))) = true
   ∧ refineWithFilters miniEngine resolveInW (Some [filter_a_dot_ts]) [test_in_a]
     = Proceed [])
  ∧ (patternValid miniEngine filter_backslash = false
     ∧ refineWithFilters miniEngine resolveInW (Some [filter_backslash]) [test_in_a]
       = Proceed []).
Proof. repeat split; reflexivity. Qed.

(** ** runner.ts: the retry loop *)

Section RetryLoop.
Variable runTestWorker :
  TestCase → string → Z * bool → World → TestResult * World.
Variable cfg : Config.
Variable updateSnapshot : bool.

Lemma attempts_spec (n : nat) source test w :
  ∃ rs : list TestResult,
    results (attempts runTestWorker cfg updateSnapshot n source test w).1
    = results test ++ rs
    ∧ length rs ≤ n
    ∧ match firstEnding rs with
      | Some i => length rs = S i
      | None => length rs = n
      end.
Proof.
  revert test w. induction n as [|n IH]; intros test w.
  - exists []. cbn. by rewrite app_nil_r.
  - cbn [attempts].
    destruct (runTestWorker test source (getTimeout cfg, updateSnapshot) w)
      as [r w1].
    set (testResult := mkTestResult (status r) (error r) (duration r) (snapshots r)).
    destruct (bool_decide (status r = expected) || bool_decide (status r = skipped))
      eqn:Hend.
    + exists [testResult]. cbn. unfold endsRetries. cbn. rewrite Hend.
      repeat split; lia.
    + destruct (IH (pushResult test testResult)
                  (endTest (pushResult test testResult) testResult w1))
        as (rs & Hres & Hlen & Hfirst).
      exists (testResult :: rs). rewrite Hres. cbn [pushResult results].
      rewrite <- app_assoc. split; [done|]. cbn [length firstEnding].
      split; [lia|]. unfold endsRetries at 1. cbn [status testResult].
      rewrite Hend. destruct (firstEnding rs); cbn; lia.
Qed.

(** C4 (as amended). For a selected test the attempts run one after the
    other, each appending one result; there are at most
    [max(0, retries) + 1] of them; their number is the position of the
    first attempt recorded as [expected] or [skipped] when there is one,
    and [max(0, retries) + 1] otherwise. *)
Theorem retry_loop_attempts (filteredTestIds : gset string) source test w :
  id test ∈ filteredTestIds →
  ∃ rs : list TestResult,
    results (runSuites_task runTestWorker cfg updateSnapshot
               filteredTestIds source test w).1
    = results test ++ rs
    ∧ (Z.of_nat (length rs) ≤ Z.max 0 (getRetries cfg) + 1)%Z
    ∧ match firstEnding rs with
      | Some i => length rs = S i
      | None => Z.of_nat (length rs) = (Z.max 0 (getRetries cfg) + 1)%Z
      end.
Proof.
  intros Hsel. unfold runSuites_task. rewrite bool_decide_eq_true_2 by done.
  destruct (attempts_spec (Z.to_nat (Z.max 0 (getRetries cfg) + 1)) source test w)
    as (rs & Hres & Hlen & Hfirst).
  exists rs. split; [done|]. split; [lia|].
  destruct (firstEnding rs); [done|]. lia.
Qed.

Lemma unselected_test_is_not_run (filteredTestIds : gset string) source test w :
  id test ∉ filteredTestIds →
  runSuites_task runTestWorker cfg updateSnapshot filteredTestIds source test w
  = (test, w).
Proof.
  intros Hsel. unfold runSuites_task. by rewrite bool_decide_eq_false_2.
Qed.
End RetryLoop.

Lemma filteredTestIdsOf_existsb (sel : list TestCase) (test : TestCase) :
  id test ∈ filteredTestIdsOf sel
  ↔ existsb (λ t', bool_decide (id t' = id test)) sel = true.
Proof.
  unfold filteredTestIdsOf.
  rewrite elem_of_list_to_set, list_elem_of_fmap, existsb_exists. split.
  - intros (t' & E & Hin). exists t'. rewrite <- list_elem_of_In.
    split; [done|]. by apply bool_decide_eq_true.
  - intros (t' & Hin & E). exists t'. apply bool_decide_eq_true in E.
    by rewrite list_elem_of_In.
Qed.

(** C5 (as amended). When some collected test carries [only], the tests
    retained by this step are exactly those that carry [only]; when none
    does, the collected tests are unchanged.  What is run goes by id: the
    task of a test calls the worker, first of all for that test in the
    world as it is, exactly when some selected test has the id of the
    test; so a test without [only] that shares its id with a selected
    test is run too. *)
Theorem only_gate_and_dispatch_by_id (allTests : list TestCase) :
  refineWithOnly allTests
  = (if existsb hasOnly allTests then List.filter hasOnly allTests else allTests)
  ∧ (existsb hasOnly allTests = true
     ↔ ∃ t, t ∈ allTests ∧ only ∈ annotations t)
  ∧ (∀ t, t ∈ List.filter hasOnly allTests
          ↔ t ∈ allTests ∧ only ∈ annotations t)
  ∧ (∀ runTestWorker cfg updateSnapshot sel source test w,
       runSuites_task runTestWorker cfg updateSnapshot (filteredTestIdsOf sel)
         source test w
       = if existsb (λ t', bool_decide (id t' = id test)) sel
         then attempts runTestWorker cfg updateSnapshot
                (Z.to_nat (Z.max 0 (getRetries cfg) + 1)) source test w
         else (test, w))
  ∧ (∀ runTestWorker cfg updateSnapshot source test w,
       ∃ rs,
         results (attempts runTestWorker cfg updateSnapshot
                    (Z.to_nat (Z.max 0 (getRetries cfg) + 1)) source test w).1
         = results test
           ++ (let r := (runTestWorker test source
                           (getTimeout cfg, updateSnapshot) w).1 in
               mkTestResult (status r) (error r) (duration r) (snapshots r))
              :: rs).
Proof.
  split; [apply refineWithOnly_existsb|]. split; [apply existsb_hasOnly|].
  split; [|split].
  - intros t. rewrite elem_of_List_filter. unfold hasOnly.
    by rewrite bool_decide_eq_true.
  - intros runTestWorker cfg updateSnapshot sel source test w.
    unfold runSuites_task.
    pose proof (filteredTestIdsOf_existsb sel test) as H.
    destruct (existsb _ sel).
    + rewrite bool_decide_eq_true_2; [done|]. by apply H.
    + rewrite bool_decide_eq_false_2; [done|]. intros Hin. by apply H in Hin.
  - intros runTestWorker cfg updateSnapshot source test w.
    assert (∃ n, Z.to_nat (Z.max 0 (getRetries cfg) + 1) = S n) as [n ->].
    { exists (Z.to_nat (Z.max 0 (getRetries cfg))). lia. }
    cbn [attempts].
    destruct (runTestWorker test source (getTimeout cfg, updateSnapshot) w)
      as [r w1]. cbn [fst].
    set (testResult := mkTestResult (status r) (error r) (duration r) (snapshots r)).
    destruct (bool_decide (status r = expected) || bool_decide (status r = skipped)).
    + by exists [].
    + destruct (attempts_spec runTestWorker cfg updateSnapshot n source
                  (pushResult test testResult)
                  (endTest (pushResult test testResult) testResult w1))
        as (rs & Hres & _).
      exists rs. rewrite Hres. cbn [pushResult results].
      by rewrite <- app_assoc.
Qed.

(** With [only] on one of two tests of the same id, the other test is not
    retained, yet its task calls the worker for it, whatever the worker
    is, and records the result; with the attempt of the specification the
    test is dispatched to the pool. *)
Lemma non_only_test_is_dispatched :
  existsb hasOnly [only_prompt; plain_prompt] = true
  ∧ (only ∉ annotations plain_prompt)
  ∧ selectTests miniEngine resolveInW None [only_prompt; plain_prompt]
    = Proceed [only_prompt]
  ∧ (∀ runTestWorker,
       results (runSuites_task runTestWorker defaultConfig false
                  (filteredTestIdsOf [only_prompt])
                  "file:///w/.tact/cache/a.js" plain_prompt noWorld).1
       = [let r := (runTestWorker plain_prompt "file:///w/.tact/cache/a.js"
                      (30000%Z, false) noWorld).1 in
          mkTestResult (status r) (error r) (duration r) (snapshots r)])
  ∧ dispatched (runSuites_task (runTestWorker_attempt failingPool)
                  defaultConfig false (filteredTestIdsOf [only_prompt])
                  "file:///w/.tact/cache/a.js" plain_prompt noWorld).2
    = ["a.ts:0:0prompt"]
  ∧ status <$> results (runSuites_task (runTestWorker_attempt failingPool)
                  defaultConfig false (filteredTestIdsOf [only_prompt])
                  "file:///w/.tact/cache/a.js" plain_prompt noWorld).1
    = [unexpected].
Proof.
  assert (Hid : id plain_prompt ∈ filteredTestIdsOf [only_prompt]).
  { apply filteredTestIdsOf_existsb. reflexivity. }
  split; [reflexivity|]. split; [cbn; set_solver|]. split; [reflexivity|].
  unfold runSuites_task. rewrite bool_decide_eq_true_2 by done.
  split; [|split; reflexivity].
  intros runTestWorker.
  change (Z.to_nat (Z.max 0 (getRetries defaultConfig) + 1)) with 1%nat.
  change (getTimeout defaultConfig) with 30000%Z. cbn [attempts].
  destruct (runTestWorker plain_prompt _ _ noWorld) as [r w1]. cbn [fst].
  by destruct (bool_decide (status r = expected)
               || bool_decide (status r = skipped)).
Qed.

(** A test that fails once and then passes, with two retries allowed: two
    attempts, [unexpected] then [expected]. *)
Lemma retry_loop_attempts_witness :
  ∃ rs : list TestResult,
    results (runSuites_task (runTestWorker_attempt flakyPool)
               (mkConfig 30000 5000 2 0) false
               (filteredTestIdsOf [test_in_a]) "file:///w/.tact/cache/a.js"
               test_in_a noWorld).1
    = results test_in_a ++ rs
    ∧ (Z.of_nat (length rs) ≤ Z.max 0 2 + 1)%Z
    ∧ match firstEnding rs with
      | Some i => length rs = S i
      | None => Z.of_nat (length rs) = (Z.max 0 2 + 1)%Z
      end.
Proof.
  apply (retry_loop_attempts (runTestWorker_attempt flakyPool)
           (mkConfig 30000 5000 2 0) false (filteredTestIdsOf [test_in_a])
           "file:///w/.tact/cache/a.js" test_in_a noWorld).
  vm_compute. set_solver.
Defined.

Example flaky_run_statuses :
  status <$> results (runSuites_task (runTestWorker_attempt flakyPool)
               (mkConfig 30000 5000 2 0) false
               (filteredTestIdsOf [test_in_a]) "file:///w/.tact/cache/a.js"
               test_in_a noWorld).1
  = [unexpected; expected].
Proof.
  unfold runSuites_task. rewrite bool_decide_eq_true_2; [reflexivity|].
  unfold filteredTestIdsOf. set_solver.
Qed.

(** With [retries = -1] and a test that never passes there is one attempt,
    not [retries + 1 = 0]. *)
Lemma negative_retries_one_attempt :
  let test' :=
    (runSuites_task (runTestWorker_attempt failingPool)
       (mkConfig 30000 5000 (-1) 0) false
       (filteredTestIdsOf [test_in_a]) "file:///w/.tact/cache/a.js"
       test_in_a noWorld).1 in
  status <$> results test' = [unexpected]
  ∧ Z.of_nat (length (results test')) ≠ (getRetries (mkConfig 30000 5000 (-1) 0) + 1)%Z.
Proof.
  assert (E : status <$> results
    (runSuites_task (runTestWorker_attempt failingPool)
       (mkConfig 30000 5000 (-1) 0) false
       (filteredTestIdsOf [test_in_a]) "file:///w/.tact/cache/a.js"
       test_in_a noWorld).1 = [unexpected]).
  { unfold runSuites_task. rewrite bool_decide_eq_true_2; [reflexivity|].
    unfold filteredTestIdsOf. set_solver. }
  cbv zeta. split; [exact E|].
  apply (f_equal length) in E. rewrite length_fmap in E. rewrite E. done.
Qed.

(** ** runner.ts: skipped tests *)

Lemma id_pushResult test r : id (pushResult test r) = id test.
Proof. reflexivity. Qed.

Lemma refineWithFilters_cons engine resolve f fs (allTests : list TestCase) :
  refineWithFilters engine resolve (Some (f :: fs)) allTests
  = if forallb (λ f, patternValid engine (doubleBackslashes f)) (f :: fs)
    then Proceed
           (List.filter
              (λ test, existsb
                 (λ f, patternMatches engine (doubleBackslashes f)
                         (resolve (default "" (filePath test))))
                 (f :: fs))
              allTests)
    else ProcessExit 1 invalidFilterMessage.
Proof.
  unfold refineWithFilters.
  pose proof (compilePatterns_spec engine (f :: fs)) as H.
  destruct (compilePatterns engine (f :: fs)) as [patterns|].
  - destruct H as [-> H]. f_equal. apply filter_ext. intros test.
    rewrite <- H.
    destruct (existsb _ patterns) eqn:E.
    + apply bool_decide_eq_true. by apply find_existsb.
    + apply bool_decide_eq_false. rewrite find_existsb. by rewrite E.
  - by rewrite H.
Qed.

(** Nothing in the selection pipeline looks at [skip]: a collected test that
    passes the only-gate and the filters is selected. *)
Lemma selectTests_keeps engine resolve testFilter allTests sel test :
  selectTests engine resolve testFilter allTests = Proceed sel →
  test ∈ allTests →
  (existsb hasOnly allTests = true → only ∈ annotations test) →
  (∀ f fs, testFilter = Some (f :: fs) →
     existsb (λ filter, patternMatches engine (doubleBackslashes filter)
                          (resolve (default "" (filePath test)))) (f :: fs)
     = true) →
  test ∈ sel.
Proof.
  intros Hsel Hin Honly Hfilter.
  assert (Hgate : test ∈ refineWithOnly allTests).
  { rewrite refineWithOnly_existsb.
    destruct (existsb hasOnly allTests); [|done].
    apply elem_of_List_filter. split; [done|].
    unfold hasOnly. apply bool_decide_eq_true. by apply Honly. }
  unfold selectTests in Hsel.
  destruct testFilter as [[|f fs]|];
    [cbn in Hsel; by simplify_eq | | cbn in Hsel; by simplify_eq].
  rewrite refineWithFilters_cons in Hsel.
  destruct (forallb _ (f :: fs)); [|done]. simplify_eq.
  apply elem_of_List_filter. split; [done|]. by apply (Hfilter f fs).
Qed.

Lemma elem_of_filteredTestIdsOf sel test :
  test ∈ sel → id test ∈ filteredTestIdsOf sel.
Proof.
  intros Hin. unfold filteredTestIdsOf. apply elem_of_list_to_set.
  apply list_elem_of_fmap. eauto.
Qed.

Lemma attempts_skip pool cfg updateSnapshot (n : nat) source test w :
  skip ∈ annotations test →
  attempts (runTestWorker_attempt pool) cfg updateSnapshot (S n) source test w
  = (pushResult test (mkTestResult skipped None 0 []),
     endTest test (mkTestResult skipped None 0 []) w).
Proof.
  intros Hskip. cbn [attempts]. unfold runTestWorker_attempt.
  by rewrite bool_decide_eq_true_2.
Qed.

(** C6. A test annotated [skip] is not removed by the selection pipeline:
    if it is collected and passes the only-gate and the filters, it is
    selected; its task then records one result with status [skipped] and
    stops, and nothing is dispatched to the pool. *)
Theorem skipped_test_is_selected_and_not_dispatched
    pool cfg updateSnapshot engine resolve testFilter allTests sel source test w :
  skip ∈ annotations test →
  selectTests engine resolve testFilter allTests = Proceed sel →
  test ∈ allTests →
  (existsb hasOnly allTests = true → only ∈ annotations test) →
  (∀ f fs, testFilter = Some (f :: fs) →
     existsb (λ filter, patternMatches engine (doubleBackslashes filter)
                          (resolve (default "" (filePath test)))) (f :: fs)
     = true) →
  let task := runSuites_task (runTestWorker_attempt pool) cfg updateSnapshot
                (filteredTestIdsOf sel) source test w in
  test ∈ sel
  ∧ results task.1 = results test ++ [mkTestResult skipped None 0 []]
  ∧ dispatched task.2 = dispatched w
  ∧ reported task.2 = reported w ++ [(id test, mkTestResult skipped None 0 [])].
Proof.
  intros Hskip Hsel Hin Honly Hfilter task.
  assert (Hmem : test ∈ sel) by eauto using selectTests_keeps.
  split; [done|]. unfold task, runSuites_task.
  rewrite bool_decide_eq_true_2 by by apply elem_of_filteredTestIdsOf.
  assert (∃ n, Z.to_nat (Z.max 0 (getRetries cfg) + 1) = S n) as [n ->].
  { exists (Z.to_nat (Z.max 0 (getRetries cfg))). lia. }
  by rewrite attempts_skip.
Qed.

Lemma skipped_test_is_selected_and_not_dispatched_witness :
  let task := runSuites_task (runTestWorker_attempt failingPool)
                (mkConfig 30000 5000 2 0) false
                (filteredTestIdsOf [test_in_a; skipped_in_a])
                "file:///w/.tact/cache/a.js" skipped_in_a noWorld in
  skipped_in_a ∈ [test_in_a; skipped_in_a]
  ∧ results task.1 = results skipped_in_a ++ [mkTestResult skipped None 0 []]
  ∧ dispatched task.2 = dispatched noWorld
  ∧ reported task.2
    = reported noWorld ++ [(id skipped_in_a, mkTestResult skipped None 0 [])].
Proof.
  apply (skipped_test_is_selected_and_not_dispatched failingPool
           (mkConfig 30000 5000 2 0) false miniEngine resolveInW None
           [test_in_a; skipped_in_a] [test_in_a; skipped_in_a]
           "file:///w/.tact/cache/a.js" skipped_in_a noWorld).
  - vm_compute. set_solver.
  - reflexivity.
  - set_solver.
  - vm_compute. discriminate.
  - intros f fs H. discriminate H.
Defined.

(** ** worker.ts: the per-call timeout *)

Lemma runTestWorker_events_silent timeout t0 trace startTime :
  (timeout > 0)%Z →
  silentUntil timeout trace = true →
  ∃ startTime',
    runTestWorker_events timeout t0 trace startTime Pending
    = Resolved (mkWorkerResult (Some (timeoutMessage timeout)) false
                  (t0 + timeout - startTime')).
Proof.
  intros Hpos. revert startTime.
  induction trace as [|[t ev] trace IH]; intros startTime Hsilent;
    cbn [runTestWorker_events].
  - rewrite bool_decide_eq_true_2 by done. by exists startTime.
  - rewrite bool_decide_eq_true_2 by done. cbn [andb].
    cbn in Hsilent. apply andb_true_iff in Hsilent as [Hev Hrest].
    case_bool_decide as Hlate; [by exists startTime|].
    cbn in Hev. destruct ev as [[st|msg d]| |e]; try done.
    cbn [runTestWorker_on]. case_bool_decide; by apply IH.
Qed.

(** The promise returned by [runTestWorker] is never rejected. *)
Lemma runTestWorker_never_rejects timeout t0 trace reason :
  runTestWorker timeout t0 trace ≠ Rejected reason.
Proof.
  unfold runTestWorker.
  assert (H : ∀ startTime p, (∀ r, p ≠ Rejected r) →
            runTestWorker_events timeout t0 trace startTime p ≠ Rejected reason).
  { induction trace as [|[t ev] trace IH]; intros startTime p Hp;
      cbn [runTestWorker_events].
    - case_bool_decide; [|done]. cbn. by destruct p.
    - destruct (_ && _); [cbn; by destruct p|].
      destruct ev as [[st|msg d]| |e].
      + cbn. case_bool_decide; by apply IH.
      + cbn. case_bool_decide; apply IH; [|done]. intros r. by destruct p.
      + by destruct p.
      + destruct e; cbn; by destruct p. }
  by apply H.
Qed.

(** Forgetting the rows gives back [runTestWorker]. *)
Lemma forgetOutcome_resolveAs o value p :
  forgetOutcome (resolveAs o value p) = resolve value (forgetOutcome p).
Proof. by destruct p as [|[o' r']|reason]. Qed.

Lemma forgetOutcome_classified_events timeout t0 trace startTime p :
  forgetOutcome (classified_events timeout t0 trace startTime p)
  = runTestWorker_events timeout t0 trace startTime (forgetOutcome p).
Proof.
  revert startTime p.
  induction trace as [|[t ev] trace IH]; intros startTime p;
    cbn [classified_events runTestWorker_events].
  - case_bool_decide; [|done]. cbn. apply forgetOutcome_resolveAs.
  - destruct (_ && _); [cbn; apply forgetOutcome_resolveAs|].
    destruct ev as [[st|msg d]| |e].
    + cbn. case_bool_decide; apply IH.
    + cbn. case_bool_decide; rewrite IH; [|done].
      by rewrite forgetOutcome_resolveAs.
    + apply forgetOutcome_resolveAs.
    + destruct e; cbn; try apply forgetOutcome_resolveAs; done.
Qed.

Lemma forgetOutcome_runTestWorker_classified timeout t0 trace :
  forgetOutcome (runTestWorker_classified timeout t0 trace)
  = runTestWorker timeout t0 trace.
Proof. apply forgetOutcome_classified_events. Qed.

Lemma classified_events_silent timeout t0 trace startTime :
  (timeout > 0)%Z →
  silentUntil timeout trace = true →
  ∃ startTime',
    classified_events timeout t0 trace startTime Pending
    = Resolved (WorkerTimeout,
                mkWorkerResult (Some (timeoutMessage timeout)) false
                  (t0 + timeout - startTime')).
Proof.
  intros Hpos. revert startTime.
  induction trace as [|[t ev] trace IH]; intros startTime Hsilent;
    cbn [classified_events].
  - rewrite bool_decide_eq_true_2 by done. by exists startTime.
  - rewrite bool_decide_eq_true_2 by done. cbn [andb].
    cbn in Hsilent. apply andb_true_iff in Hsilent as [Hev Hrest].
    case_bool_decide as Hlate; [by exists startTime|].
    cbn in Hev. destruct ev as [[st|msg d]| |e]; try done.
    cbn [classified_on]. case_bool_decide; by apply IH.
Qed.

(** The digits that [numberToString] writes denote the number, and they do
    not start with a zero unless the number is zero. *)
Lemma decimalValue_numberToString (n : N) :
  decimalValue (numberToString n) = Some n.
Proof.
  unfold decimalValue, numberToString.
  rewrite NilZero.usu.
  - cbn. f_equal. apply DecimalN.Unsigned.of_to.
  - destruct n; [discriminate|]. apply DecimalPos.Unsigned.to_uint_nonnil.
Qed.

Lemma numberToString_no_leading_zero (n : N) :
  (0 < n)%N → startsWith "0" (numberToString n) = false.
Proof.
  intros Hpos. destruct n as [|p]; [lia|].
  unfold numberToString. cbn [N.to_uint].
  pose proof (DecimalN.Unsigned.to_of (N.to_uint (N.pos p))) as Hnorm.
  rewrite DecimalN.Unsigned.of_to in Hnorm. cbn [N.to_uint] in Hnorm.
  pose proof (DecimalPos.Unsigned.to_uint_nonzero p) as Hnz.
  destruct (Pos.to_uint p) as [|u|u|u|u|u|u|u|u|u|u] eqn:E; try done.
  exfalso. rewrite unorm_D0 in Hnorm.
  destruct (Decimal.nzhead u) as [|v|v|v|v|v|v|v|v|v|v] eqn:Hhead;
    [ apply unorm_0 in Hhead; congruence
    | by apply (nzhead_nonzero u v)
    | .. ];
    rewrite unorm_nzhead in Hnorm; congruence.
Qed.

(** C8. With a positive timeout, a call for which no terminal event comes
    from the worker before the deadline resolves (it is not rejected and
    does not stay pending) by the branch of the TimeoutError, as a
    failure: [passed] is false, the status recorded for the call is
    [unexpected] whatever the annotations of the test, and the error text
    is the timeout diagnostic, in which the decimal digits of the timeout
    (no leading zero) are followed by [ms]. *)
Theorem per_call_timeout_resolves_as_unexpected timeout t0 trace :
  (timeout > 0)%Z →
  silentUntil timeout trace = true →
  ∃ r digits,
    runTestWorker timeout t0 trace = Resolved r
    ∧ (∀ reason, runTestWorker timeout t0 trace ≠ Rejected reason)
    ∧ runTestWorker_classified timeout t0 trace = Resolved (WorkerTimeout, r)
    ∧ (∀ anns, recordedStatusOfCall timeout t0 trace anns = Some unexpected)
    ∧ passed r = false
    ∧ wr_error r
      = Some ("Error: worker was terminated as the timeout (" +:+ digits
              +:+ " ms) as exceeded")
    ∧ decimalValue digits = Some (Z.to_N timeout)
    ∧ startsWith "0" digits = false.
Proof.
  intros Hpos Hsilent.
  destruct (classified_events_silent timeout t0 trace t0 Hpos Hsilent)
    as [startTime' E].
  pose proof (forgetOutcome_runTestWorker_classified timeout t0 trace) as F.
  unfold runTestWorker_classified in F. rewrite E in F. cbn in F.
  assert (Hdigits : intToString timeout = numberToString (Z.to_N timeout)).
  { unfold intToString. rewrite bool_decide_eq_false_2; [done|lia]. }
  eexists _, (numberToString (Z.to_N timeout)).
  split; [by rewrite <- F|].
  split; [intros reason; apply runTestWorker_never_rejects|].
  split; [exact E|].
  split; [intros anns; unfold recordedStatusOfCall, runTestWorker_classified;
          by rewrite E|].
  split; [done|].
  split; [cbn; unfold timeoutMessage; by rewrite Hdigits|].
  split; [apply decimalValue_numberToString|].
  apply numberToString_no_leading_zero. lia.
Qed.

(** Scenario S2: a test body that never returns, with a timeout of 500 ms;
    the test is annotated [fail]. *)
Lemma per_call_timeout_resolves_as_unexpected_witness :
  ∃ r,
    runTestWorker 500 1000 hangingTrace = Resolved r
    ∧ runTestWorker_classified 500 1000 hangingTrace
      = Resolved (WorkerTimeout, r)
    ∧ recordedStatusOfCall 500 1000 hangingTrace [fail_] = Some unexpected
    ∧ passed r = false
    ∧ wr_error r
      = Some "Error: worker was terminated as the timeout (500 ms) as exceeded"
    ∧ wr_duration r = 497%Z.
Proof.
  destruct (per_call_timeout_resolves_as_unexpected 500 1000 hangingTrace
              eq_refl eq_refl)
    as (r & digits & E & _ & Ec & Hs & Hp & _).
  exists r. vm_compute in E. injection E as <-.
  split; [reflexivity|]. split; [exact Ec|]. split; [apply Hs|].
  repeat split.
Defined.

Example hanging_test_result :
  runTestWorker 500 1000 hangingTrace
  = Resolved (mkWorkerResult
      (Some "Error: worker was terminated as the timeout (500 ms) as exceeded")
      false 497).
Proof. reflexivity. Qed.

(** ** test.ts: declarations and the registry *)

Lemma Decl_nested_ind (P : Decl → Prop) :
  (∀ title location fn, P (CallTest title location fn)) →
  (∀ title location fn, P (CallSkip title location fn)) →
  (∀ title location fn, P (CallFail title location fn)) →
  (∀ options, P (CallUse options)) →
  (∀ title callback, Forall P callback → P (CallDescribe title callback)) →
  ∀ d, P d.
Proof.
  intros Htest Hskip Hfail Huse Hdescribe. fix IH 1. intros [| | | |title callback].
  - apply Htest.
  - apply Hskip.
  - apply Hfail.
  - apply Huse.
  - apply Hdescribe. induction callback as [|d ds IHds]; constructor.
    + apply IH.
    + apply IHds.
Qed.

Lemma evalDecl_describe title callback g :
  evalDecl (CallDescribe title callback) g
  = test_describe title (evalDecls callback) g.
Proof.
  cbn [evalDecl].
  assert (H : ∀ ds g0,
    (fix evalAll (ds : list Decl) (g1 : Globals) : Globals :=
       match ds with
       | [] => g1
       | d' :: ds' => evalAll ds' (evalDecl d' g1)
       end) ds g0 = evalDecls ds g0).
  { induction ds as [|d ds IHds]; intros g0; [done|]. by rewrite IHds. }
  unfold test_describe. cbn beta. by rewrite !H.
Qed.

Lemma registerAll_app ts1 ts2 m :
  registerAll (ts1 ++ ts2) m = registerAll ts2 (registerAll ts1 m).
Proof. unfold registerAll. apply foldl_app. Qed.

Lemma allTestsOf_pushTest t n :
  allTestsOf (pushTest t n) ≡ₚ allTestsOf n ++ [t].
Proof.
  destruct n as [s o ts ss]. cbn.
  rewrite <- !app_assoc. apply Permutation_app_head, Permutation_app_comm.
Qed.

Lemma evalDecls_effect_of (ds : list Decl) :
  Forall (λ d, ∀ g, evalEffect (tree_suite (ambient g))
                      (declaredBy (tree_suite (ambient g)) d) g (evalDecl d g)) ds →
  ∀ g, evalEffect (tree_suite (ambient g))
         (declared (tree_suite (ambient g)) ds) g (evalDecls ds g).
Proof.
  induction 1 as [|d ds Hd _ IH]; intros g.
  - unfold evalEffect, declared. cbn. rewrite app_nil_r.
    split; [done|]. split; [|done]. by destruct (tests g).
  - destruct (Hd g) as (Hs1 & Ht1 & Ha1).
    destruct (IH (evalDecl d g)) as (Hs2 & Ht2 & Ha2).
    rewrite Hs1 in Hs2, Ht2, Ha2.
    unfold evalEffect, declared. cbn [evalDecls foldl map concat].
    fold (evalDecls ds (evalDecl d g)).
    split; [by rewrite Hs2|]. split.
    + change (concat (map (declaredBy (tree_suite (ambient g))) ds))
        with (declared (tree_suite (ambient g)) ds).
      rewrite Ht2, Ht1, List.filter_app.
      destruct (tests g); cbn; [|done]. by rewrite registerAll_app.
    + rewrite Ha2, Ha1. by rewrite <- app_assoc.
Qed.

Lemma evalDecl_effect (d : Decl) :
  ∀ g, evalEffect (tree_suite (ambient g))
         (declaredBy (tree_suite (ambient g)) d) g (evalDecl d g).
Proof.
  induction d as [title loc fn|title loc fn|title loc fn|options|title callback IH]
    using Decl_nested_ind; intros g.
  - unfold evalEffect. cbn. split; [by destruct (ambient g)|].
    split; [by destruct (tests g)|]. apply allTestsOf_pushTest.
  - unfold evalEffect. cbn. split; [by destruct (ambient g)|].
    split; [by destruct (tests g)|]. apply allTestsOf_pushTest.
  - unfold evalEffect. cbn. split; [by destruct (ambient g)|].
    split; [by destruct (tests g)|]. apply allTestsOf_pushTest.
  - unfold evalEffect. cbn. rewrite app_nil_r.
    split; [done|]. split; [by destruct (tests g)|].
    by destruct (ambient g).
  - rewrite evalDecl_describe. unfold test_describe.
    set (child := SuiteNode (mkSuite title describe (Some (tree_suite (ambient g))))
                    (tree_options (ambient g)) [] []).
    destruct (evalDecls_effect_of callback IH (mkGlobals child (tests g)))
      as (Hs & Ht & Ha).
    cbn [ambient tests tree_suite] in Hs, Ht, Ha.
    unfold evalEffect. cbn [ambient tests tree_suite declaredBy].
    split; [done|]. split; [exact Ht|].
    destruct (ambient g) as [s o ts ss]. cbn [allTestsOf tree_suite tree_tests tree_suites] in *.
    rewrite map_app, concat_app. cbn [map concat]. rewrite app_nil_r.
    rewrite <- !app_assoc. do 2 apply Permutation_app_head.
    rewrite Ha. done.
Qed.

Lemma evalDecls_effect (ds : list Decl) (g : Globals) :
  evalEffect (tree_suite (ambient g))
    (declared (tree_suite (ambient g)) ds) g (evalDecls ds g).
Proof.
  apply evalDecls_effect_of, Forall_forall. intros d _. apply evalDecl_effect.
Qed.

Lemma registerAll_lookup_None ts (m : gmap string TestCase) k :
  m !! k = None →
  (∀ t, t ∈ ts → id t ≠ k) →
  registerAll ts m !! k = None.
Proof.
  revert m. induction ts as [|t ts IH]; intros m Hm Hts; [done|].
  cbn. apply IH.
  - rewrite lookup_insert_ne; [done|]. apply Hts. by left.
  - intros t' Ht'. apply Hts. by right.
Qed.

Lemma registerAll_lookup_Some ts (m : gmap string TestCase) k t :
  registerAll ts m !! k = Some t →
  m !! k = Some t ∨ (t ∈ ts ∧ id t = k).
Proof.
  revert m. induction ts as [|t0 ts IH]; intros m Hk; [by left|].
  cbn in Hk. destruct (IH _ Hk) as [Hm | [Hin E]].
  - destruct (decide (id t0 = k)) as [E|Hne].
    + rewrite E, lookup_insert_eq in Hm. simplify_eq. right.
      split; [by left | done].
    + rewrite lookup_insert_ne in Hm by done. by left.
  - right. split; [by right | done].
Qed.

Lemma no_registry_stays_absent ds g :
  tests g = None → tests (evalDecls ds g) = None.
Proof.
  intros Hnone. destruct (evalDecls_effect ds g) as (_ & Ht & _).
  by rewrite Ht, Hnone.
Qed.

(** C10 (as amended). While the registry exists, a sequence of declaration
    calls stores in it, in order and under their ids, the tests declared
    through [test] and [test.skip], and nothing else; a test declared
    through [test.fail] is put into the suite tree but is not stored, so
    looking it up by its id finds no entry, provided no earlier entry and no
    test declared through [test] or [test.skip] has the same id. *)
Theorem fail_declared_test_is_not_registered ds g m t :
  tests g = Some m →
  t ∈ declared (tree_suite (ambient g)) ds →
  declaredViaFail t = true →
  m !! id t = None →
  (∀ t', t' ∈ declared (tree_suite (ambient g)) ds →
         declaredViaFail t' = false → id t' ≠ id t) →
  let g' := evalDecls ds g in
  tests g'
  = Some (registerAll
            (List.filter (λ t', negb (declaredViaFail t'))
               (declared (tree_suite (ambient g)) ds)) m)
  ∧ t ∈ allTestsOf (ambient g')
  ∧ (∀ k t', tests g' ≫= (λ r, r !! k) = Some t' →
       m !! k = Some t'
       ∨ (t' ∈ declared (tree_suite (ambient g)) ds ∧ declaredViaFail t' = false))
  ∧ tests g' ≫= (λ r, r !! id t) = None.
Proof.
  intros Hm Hin Hfail Hfresh Hdistinct g'.
  destruct (evalDecls_effect ds g) as (_ & Ht & Ha). fold g' in Ht, Ha.
  rewrite Hm in Ht. cbn in Ht. rewrite Ht. cbn [mbind option_bind].
  split; [done|]. split; [|split].
  - rewrite Ha. apply elem_of_app. by right.
  - intros k t' Hk. apply registerAll_lookup_Some in Hk as [Hk | [Hk _]].
    + by left.
    + right. apply elem_of_List_filter in Hk as [Hk1 Hk2].
      split; [done|]. by apply negb_true_iff.
  - apply registerAll_lookup_None; [done|].
    intros t' Ht'. apply elem_of_List_filter in Ht' as [Ht1 Ht2].
    apply Hdistinct; [done|]. by apply negb_true_iff.
Qed.

Lemma fail_declared_test_is_not_registered_witness :
  let g' := evalDecls onlyFailCalls (mkGlobals fileTree_a (Some ∅)) in
  let t := mkTestCase "prompt" (mkLocation 7 40) 2
             (mkSuite "shell" describe (Some fileSuite_a)) [fail_] [] in
  t ∈ allTestsOf (ambient g') ∧ tests g' ≫= (λ r, r !! id t) = None.
Proof.
  pose proof (fail_declared_test_is_not_registered onlyFailCalls
    (mkGlobals fileTree_a (Some ∅)) ∅
    (mkTestCase "prompt" (mkLocation 7 40) 2
       (mkSuite "shell" describe (Some fileSuite_a)) [fail_] [])) as H.
  cbv zeta in H. destruct H as (_ & Hin & _ & Hlookup).
  - reflexivity.
  - vm_compute. set_solver.
  - reflexivity.
  - reflexivity.
  - intros t' Ht' Hfail'. vm_compute in Ht'.
    apply list_elem_of_singleton in Ht'. subst t'. discriminate Hfail'.
  - cbv zeta. split; [exact Hin | exact Hlookup].
Defined.

(** In a fresh worker, the lookup of the failing test of that file finds
    nothing. *)
Example lookup_of_fail_declared_test :
  (runTest_lookup (λ _, onlyFailCalls) "a.ts:7:7shellprompt" fileTree_a
     "file:///w/.tact/cache/a.js" freshWorker).1 = None.
Proof. vm_compute. reflexivity. Qed.

(** A test and a failing test of the same title and location share their
    id: the failing one is in the suite but the lookup by its id finds an
    entry, the other test. *)
Lemma fail_declared_lookup_finds_entry :
  let g' := evalDecls sameTitleCalls (mkGlobals fileTree_a (Some ∅)) in
  failDeclared ∈ tree_tests (ambient g')
  ∧ declaredViaFail failDeclared = true
  ∧ tests g' ≫= (λ r, r !! id failDeclared)
    = Some (mkTestCase "prompt" (mkLocation 0 0) 1 fileSuite_a [] [])
  ∧ (runTest_lookup (λ _, sameTitleCalls) (id failDeclared) fileTree_a
       "file:///w/.tact/cache/a.js" freshWorker).1
    = Some (mkTestCase "prompt" (mkLocation 0 0) 1 fileSuite_a [] []).
Proof.
  cbv zeta. split; [|split; [|split]].
  - vm_compute. set_solver.
  - reflexivity.
  - vm_compute. reflexivity.
  - vm_compute. reflexivity.
Qed.

(** * Further properties *)

(** ** testcase.ts and the declarations *)

Lemma outcome_statuses (t : TestCase) :
  outcome t = spec_outcome (map status (results t)).
Proof.
  unfold outcome. destruct (results t); [done|]. apply outcome_loop_spec.
Qed.

Lemma elem_of_concat_map {A B} (f : A → list B) (l : list A) (y : B) :
  y ∈ concat (map f l) ↔ ∃ x, x ∈ l ∧ y ∈ f x.
Proof.
  rewrite list_elem_of_In, in_concat. split.
  - intros (ys & Hys & Hy). apply in_map_iff in Hys as (x & <- & Hx).
    exists x. by rewrite !list_elem_of_In.
  - intros (x & Hx & Hy). exists (f x). rewrite in_map_iff.
    split; [exists x; by rewrite <- list_elem_of_In | by rewrite <- list_elem_of_In].
Qed.

Lemma declaredBy_describesOver (d : Decl) :
  ∀ s t, t ∈ declaredBy s d → describesOver s (suite t).
Proof.
  induction d as [title loc fn|title loc fn|title loc fn|options|title callback IH]
    using Decl_nested_ind; intros s t Ht; cbn in Ht.
  - apply list_elem_of_singleton in Ht as ->. constructor.
  - apply list_elem_of_singleton in Ht as ->. constructor.
  - apply list_elem_of_singleton in Ht as ->. constructor.
  - by apply elem_of_nil in Ht.
  - apply elem_of_concat_map in Ht as (d & Hd & Ht).
    rewrite Forall_forall in IH. specialize (IH d Hd _ _ Ht).
    clear -IH. induction IH as [|title' s' _ IH'].
    + apply describesOver_nested. constructor.
    + by apply describesOver_nested.
Qed.

Lemma declared_describesOver s ds t :
  t ∈ declared s ds → describesOver s (suite t).
Proof.
  unfold declared. intros Ht.
  apply elem_of_concat_map in Ht as (d & Hd & Ht).
  by apply declaredBy_describesOver in Ht.
Qed.

Lemma describesOver_filePath s s' :
  describesOver s s' → filePath_from s' = filePath_from s.
Proof. induction 1 as [|title s' _ IH]; [done|]. by cbn. Qed.

(** X1. Every test that the calls of a file create, at the top level or in
    nested describe groups, has as its [filePath()] the file of the suite
    that was ambient when the calls started; for a file suite that is the
    title of the suite. *)
Theorem declared_test_filePath s ds t :
  t ∈ declared s ds →
  filePath t = filePath_from s
  ∧ (suite_type s = file → filePath t = Some (suite_title s)).
Proof.
  intros Ht. unfold filePath.
  rewrite (describesOver_filePath s (suite t)) by by eapply declared_describesOver.
  split; [done|]. intros Hfile. destruct s as [title ty p]. cbn in *.
  by rewrite bool_decide_eq_true_2.
Qed.

Lemma declared_test_filePath_witness :
  filePath (mkTestCase "prompt" (mkLocation 7 40) 2
              (mkSuite "shell" describe (Some fileSuite_a)) [fail_] [])
  = Some "a.ts".
Proof.
  apply (declared_test_filePath fileSuite_a onlyFailCalls).
  - vm_compute. set_solver.
  - reflexivity.
Defined.

Lemma includes_join (l : list string) (x : string) :
  x ∈ l → includes (join l) x = true.
Proof.
  intros Hx. apply list_elem_of_split in Hx as (l1 & l2 & ->).
  rewrite join_app, join_cons. apply includes_spec. eauto.
Qed.

Lemma filePath_from_ancestor s f :
  filePath_from s = Some f →
  ∃ a, a ∈ ancestors s ∧ suite_type a = file ∧ suite_title a = f.
Proof.
  induction s as [t ty | t ty p IH] using Suite_chain_ind;
    cbn [filePath_from ancestors suite_type suite_title parentSuite];
    case_bool_decide as Hty; intros Hf; simplify_eq.
  - eexists. split; [by left | done].
  - eexists. split; [by left | done].
  - destruct (IH Hf) as (a & Ha & Hfile & Htitle).
    exists a. split; [by right | done].
Qed.

(** X2. When a test has a file path, its id contains that path followed
    by a colon, the declaration row, a colon and the row again. *)
Theorem id_mentions_file_and_row t f :
  filePath t = Some f →
  includes (id t)
    (f +:+ ":" +:+ numberToString (row (location t)) +:+ ":"
       +:+ numberToString (row (location t))) = true.
Proof.
  intros Hf. apply filePath_from_ancestor in Hf as (a & Ha & Hfile & <-).
  unfold id, titlePath. rewrite titlePath_loop_emitted, app_nil_l.
  apply includes_join, elem_of_app. left.
  apply list_elem_of_In, in_rev. rewrite rev_involutive.
  apply list_elem_of_In, list_elem_of_omap. exists a. split; [done|].
  unfold emitted. by rewrite Hfile.
Qed.

Lemma id_mentions_file_and_row_witness :
  includes (id test_in_a) "a.ts:4:4" = true.
Proof. apply (id_mentions_file_and_row test_in_a "a.ts"). reflexivity. Defined.

(** X3. After a result is pushed, [snapshots()] gives the snapshots of
    that result, whatever the earlier results held; without results it
    gives the empty list. *)
Theorem snapshots_of_latest_result t r :
  TestCase_snapshots (pushResult t r) = snapshots r
  ∧ TestCase_snapshots
      (mkTestCase (title t) (location t) (testFunction t) (suite t)
         (annotations t) []) = [].
Proof.
  split; [|done].
  unfold TestCase_snapshots, pushResult. cbn. by rewrite last_snoc.
Qed.

Lemma has_flaky_transition_app sts1 sts2 :
  has_flaky_transition sts1 = true → has_flaky_transition (sts1 ++ sts2) = true.
Proof.
  rewrite !has_flaky_transition_iff.
  intros (pre & a & b & post & -> & H).
  exists pre, a, b, (post ++ sts2). by rewrite <- !app_assoc.
Qed.

Lemma last_In_cons (x d : TestStatus) l : List.last (x :: l) d ∈ (x :: l).
Proof.
  revert x. induction l as [|y l IH]; intros x; [by left|].
  change (List.last (x :: y :: l) d) with (List.last (y :: l) d).
  right. apply IH.
Qed.

(** X4. A test that became flaky through its attempts stays flaky: when
    [outcome()] is [flaky] and no recorded status is itself [flaky], the
    outcome is still [flaky] after any further result is pushed. *)
Theorem flaky_outcome_is_kept t r :
  outcome t = flaky →
  (∀ r0, r0 ∈ results t → status r0 ≠ flaky) →
  outcome (pushResult t r) = flaky.
Proof.
  rewrite !outcome_statuses. cbn [pushResult results]. rewrite map_app.
  intros Hflaky Hnone.
  assert (Htrans : has_flaky_transition (map status (results t)) = true).
  { unfold spec_outcome in Hflaky.
    destruct (map status (results t)) as [|s ss] eqn:E; [done|].
    destruct (has_flaky_transition (s :: ss)); [done|].
    pose proof (last_In_cons s s ss) as Hin.
    rewrite last_cons_default, Hflaky, <- E in Hin.
    apply list_elem_of_fmap in Hin as (r0 & Hr0 & Hin).
    by destruct (Hnone r0 Hin). }
  apply (has_flaky_transition_app _ (map status [r])) in Htrans.
  unfold spec_outcome.
  destruct (map status (results t) ++ map status [r]) as [|s ss] eqn:E.
  - by destruct (map status (results t)).
  - by rewrite Htrans.
Qed.

Lemma flaky_outcome_is_kept_witness :
  outcome (pushResult
             (mkTestCase "prompt" (mkLocation 4 1) 1 fileSuite_a []
                [mkTestResult unexpected None 12 []; mkTestResult expected None 7 []])
             (mkTestResult expected None 5 [])) = flaky.
Proof.
  apply flaky_outcome_is_kept.
  - reflexivity.
  - intros r0 Hr0. apply list_elem_of_In in Hr0.
    destruct Hr0 as [<-|[<-|[]]]; discriminate.
Defined.

(** ** runner.ts: what the retry loop and the selection give *)

Lemma spec_outcome_retries (k : nat) (s : TestStatus) :
  spec_outcome (replicate k unexpected ++ [s])
  = if bool_decide (s = expected ∧ 0 < k) then flaky else s.
Proof.
  induction k as [|k IH].
  - cbn. case_bool_decide as H; [destruct H; lia | done].
  - destruct k as [|k].
    + cbn [replicate app]. rewrite spec_outcome_step.
      by destruct s.
    + change (replicate (S (S k)) unexpected ++ [s])
        with (unexpected :: unexpected :: (replicate k unexpected ++ [s])).
      rewrite spec_outcome_step. cbn [flaky_transition].
      change (unexpected :: replicate k unexpected ++ [s])
        with (replicate (S k) unexpected ++ [s]).
      rewrite IH. destruct (decide (s = expected)) as [->|Hne].
      * rewrite !bool_decide_eq_true_2; [done | split; [done|lia] | split; [done|lia]].
      * rewrite !bool_decide_eq_false_2;
          [done | intros [? ?]; done | intros [? ?]; done].
Qed.

Section RetryLoopMore.
Variable runTestWorker :
  TestCase → string → Z * bool → World → TestResult * World.
Variable cfg : Config.
Variable updateSnapshot : bool.

Lemma attempts_statuses (n : nat) source test w :
  (∀ t s o w0, status (runTestWorker t s o w0).1 ∈ [expected; unexpected; skipped]) →
  0 < n →
  ∃ (k : nat) (s : TestStatus),
    map status (results (attempts runTestWorker cfg updateSnapshot n source test w).1)
    = map status (results test) ++ replicate k unexpected ++ [s]
    ∧ k < n
    ∧ (s = unexpected → S k = n).
Proof.
  intros Hthree. revert test w. induction n as [|n IH]; intros test w Hn; [lia|].
  cbn [attempts].
  pose proof (Hthree test source (getTimeout cfg, updateSnapshot) w) as Hst.
  destruct (runTestWorker test source (getTimeout cfg, updateSnapshot) w)
    as [r w1]. cbn [fst] in Hst.
  set (testResult := mkTestResult (status r) (error r) (duration r) (snapshots r)).
  destruct (bool_decide (status r = expected) || bool_decide (status r = skipped))
    eqn:Hend.
  - exists 0, (status r). cbn [fst pushResult results replicate app].
    rewrite map_app. split; [done|]. split; [lia|].
    intros E. rewrite E in Hend. done.
  - assert (Hun : status r = unexpected).
    { apply orb_false_iff in Hend as [H1 H2].
      apply bool_decide_eq_false in H1, H2.
      rewrite !elem_of_cons in Hst.
      destruct Hst as [?|[?|[?|Hnil]]]; [done|done|done|].
      by apply elem_of_nil in Hnil. }
    destruct n as [|n].
    + exists 0, unexpected. cbn [attempts fst pushResult results replicate app].
      rewrite map_app. cbn. rewrite Hun. done.
    + destruct (IH (pushResult test testResult)
                  (endTest (pushResult test testResult) testResult w1) ltac:(lia))
        as (k & s & Hres & Hk & Hs).
      exists (S k), s. rewrite Hres. cbn [pushResult results].
      rewrite map_app, <- app_assoc. cbn. rewrite Hun.
      split; [done|]. split; [lia|]. intros E. specialize (Hs E). lia.
Qed.

(** X5. For a selected test without earlier results, and a worker whose
    attempts are recorded as [expected], [unexpected] or [skipped], the
    retry loop leaves a run of [unexpected] results followed by one last
    result; the outcome is [flaky] when that last result is [expected]
    after at least one failure and the status of the last result
    otherwise, and it is [unexpected] only after [max(0, retries) + 1]
    failed attempts. *)
Theorem outcome_after_retries (filteredTestIds : gset string) source test w :
  (∀ t s o w0, status (runTestWorker t s o w0).1 ∈ [expected; unexpected; skipped]) →
  results test = [] →
  id test ∈ filteredTestIds →
  ∃ (k : nat) (s : TestStatus),
    map status (results (runSuites_task runTestWorker cfg updateSnapshot
                           filteredTestIds source test w).1)
    = replicate k unexpected ++ [s]
    ∧ (Z.of_nat k ≤ Z.max 0 (getRetries cfg))%Z
    ∧ (s = unexpected → Z.of_nat k = Z.max 0 (getRetries cfg))
    ∧ outcome (runSuites_task runTestWorker cfg updateSnapshot
                 filteredTestIds source test w).1
      = if bool_decide (s = expected ∧ 0 < k) then flaky else s.
Proof.
  intros Hthree Hfresh Hsel. unfold runSuites_task.
  rewrite bool_decide_eq_true_2 by done.
  destruct (attempts_statuses (Z.to_nat (Z.max 0 (getRetries cfg) + 1))
              source test w Hthree ltac:(lia)) as (k & s & Hres & Hk & Hs).
  rewrite Hfresh in Hres. cbn [map app] in Hres.
  exists k, s. split; [done|]. split; [lia|]. split.
  - intros E. specialize (Hs E). lia.
  - by rewrite outcome_statuses, Hres, spec_outcome_retries.
Qed.

Lemma attempts_reported (n : nat) source test w :
  (∀ t s o w0, reported (runTestWorker t s o w0).2 = reported w0) →
  ∃ rs : list TestResult,
    results (attempts runTestWorker cfg updateSnapshot n source test w).1
    = results test ++ rs
    ∧ reported (attempts runTestWorker cfg updateSnapshot n source test w).2
      = reported w ++ map (λ r, (id test, r)) rs.
Proof.
  intros Hrep. revert test w. induction n as [|n IH]; intros test w.
  - exists []. cbn. by rewrite !app_nil_r.
  - cbn [attempts].
    pose proof (Hrep test source (getTimeout cfg, updateSnapshot) w) as Hw.
    destruct (runTestWorker test source (getTimeout cfg, updateSnapshot) w)
      as [r w1]. cbn [snd] in Hw.
    set (testResult := mkTestResult (status r) (error r) (duration r) (snapshots r)).
    destruct (bool_decide (status r = expected) || bool_decide (status r = skipped)).
    + exists [testResult]. cbn. by rewrite Hw.
    + destruct (IH (pushResult test testResult)
                  (endTest (pushResult test testResult) testResult w1))
        as (rs & Hres & Hlog).
      exists (testResult :: rs). rewrite Hres, Hlog.
      cbn [pushResult results endTest reported map].
      rewrite Hw, <- !app_assoc. split; [done|]. f_equal.
Qed.

(** X6. When the call to the worker itself leaves the reporter alone, the
    retry loop calls [reporter.endTest] once for every result it appends,
    with the id of the test and that result, in the order of the attempts. *)
Theorem every_result_is_reported (filteredTestIds : gset string) source test w :
  (∀ t s o w0, reported (runTestWorker t s o w0).2 = reported w0) →
  ∃ rs : list TestResult,
    results (runSuites_task runTestWorker cfg updateSnapshot
               filteredTestIds source test w).1
    = results test ++ rs
    ∧ reported (runSuites_task runTestWorker cfg updateSnapshot
                  filteredTestIds source test w).2
      = reported w ++ map (λ r, (id test, r)) rs.
Proof.
  intros Hrep. unfold runSuites_task. case_bool_decide.
  - by apply attempts_reported.
  - exists []. cbn. by rewrite !app_nil_r.
Qed.

(** X7. The task of a test runs the attempts exactly when some selected
    test has the same id as the test, whether or not the test itself was
    selected; otherwise it leaves the test and the world as they are. *)
Theorem task_runs_by_id (sel : list TestCase) source test w :
  runSuites_task runTestWorker cfg updateSnapshot (filteredTestIdsOf sel)
    source test w
  = if existsb (λ t', bool_decide (id t' = id test)) sel
    then attempts runTestWorker cfg updateSnapshot
           (Z.to_nat (Z.max 0 (getRetries cfg) + 1)) source test w
    else (test, w).
Proof.
  unfold runSuites_task, filteredTestIdsOf.
  destruct (existsb _ sel) eqn:E.
  - rewrite bool_decide_eq_true_2; [done|].
    apply existsb_exists in E as (t' & Hin & Heq).
    apply bool_decide_eq_true in Heq. apply elem_of_list_to_set.
    apply list_elem_of_fmap. exists t'. by rewrite list_elem_of_In.
  - rewrite bool_decide_eq_false_2; [done|].
    intros Hin. apply elem_of_list_to_set, list_elem_of_fmap in Hin
      as (t' & Heq & Hin).
    assert (existsb (λ t'0, bool_decide (id t'0 = id test)) sel = true) as E'.
    { apply existsb_exists. exists t'. rewrite <- list_elem_of_In.
      split; [done|]. by apply bool_decide_eq_true. }
    by rewrite E' in E.
Qed.
End RetryLoopMore.

Lemma runTestWorker_attempt_statuses pool t s o w0 :
  status (runTestWorker_attempt pool t s o w0).1 ∈ [expected; unexpected; skipped].
Proof.
  unfold runTestWorker_attempt. case_bool_decide; cbn; [set_solver|].
  unfold recordedStatus.
  destruct (reply_outcome _); try case_bool_decide; set_solver.
Qed.

Lemma outcome_after_retries_witness :
  ∃ (k : nat) (s : TestStatus),
    map status (results (runSuites_task (runTestWorker_attempt flakyPool)
                           (mkConfig 30000 5000 2 0) false
                           (filteredTestIdsOf [test_in_a])
                           "file:///w/.tact/cache/a.js" test_in_a noWorld).1)
    = replicate k unexpected ++ [s]
    ∧ (Z.of_nat k ≤ Z.max 0 2)%Z
    ∧ (s = unexpected → Z.of_nat k = Z.max 0 2)
    ∧ outcome (runSuites_task (runTestWorker_attempt flakyPool)
                 (mkConfig 30000 5000 2 0) false
                 (filteredTestIdsOf [test_in_a])
                 "file:///w/.tact/cache/a.js" test_in_a noWorld).1
      = if bool_decide (s = expected ∧ 0 < k) then flaky else s.
Proof.
  apply (outcome_after_retries (runTestWorker_attempt flakyPool)
           (mkConfig 30000 5000 2 0) false (filteredTestIdsOf [test_in_a])
           "file:///w/.tact/cache/a.js" test_in_a noWorld).
  - apply runTestWorker_attempt_statuses.
  - reflexivity.
  - vm_compute. set_solver.
Defined.

Lemma every_result_is_reported_witness :
  ∃ rs : list TestResult,
    results (runSuites_task (runTestWorker_attempt flakyPool)
               (mkConfig 30000 5000 2 0) false (filteredTestIdsOf [test_in_a])
               "file:///w/.tact/cache/a.js" test_in_a noWorld).1
    = results test_in_a ++ rs
    ∧ reported (runSuites_task (runTestWorker_attempt flakyPool)
                  (mkConfig 30000 5000 2 0) false (filteredTestIdsOf [test_in_a])
                  "file:///w/.tact/cache/a.js" test_in_a noWorld).2
      = reported noWorld ++ map (λ r, (id test_in_a, r)) rs.
Proof.
  apply (every_result_is_reported (runTestWorker_attempt flakyPool)
           (mkConfig 30000 5000 2 0) false (filteredTestIdsOf [test_in_a])
           "file:///w/.tact/cache/a.js" test_in_a noWorld).
  intros t s o w0. unfold runTestWorker_attempt. by case_bool_decide.
Defined.

Lemma List_filter_sublist {A} (p : A → bool) (l : list A) :
  sublist (List.filter p l) l.
Proof.
  induction l as [|x l IH]; cbn; [constructor|].
  destruct (p x); by constructor.
Qed.

(** X8. The selection pipeline only ever drops tests: what it selects is a
    sublist of the collected tests, in their order; and it can end the run
    in one way only, with exit code 1 and the invalid-filter message, when
    filters were given. *)
Theorem selection_only_drops engine resolve testFilter (allTests : list TestCase) :
  match selectTests engine resolve testFilter allTests with
  | Proceed sel => sublist sel allTests
  | ProcessExit code stderr =>
      code = 1%Z ∧ stderr = invalidFilterMessage
      ∧ ∃ f fs, testFilter = Some (f :: fs)
  end.
Proof.
  assert (Hgate : sublist (refineWithOnly allTests) allTests).
  { rewrite refineWithOnly_existsb. destruct (existsb _ _); [|done].
    apply List_filter_sublist. }
  unfold selectTests. destruct testFilter as [[|f fs]|]; [done| |done].
  rewrite refineWithFilters_cons. destruct (forallb _ _).
  - etrans; [apply List_filter_sublist | done].
  - eauto.
Qed.

(** X9. When some collected test carries [only], every selected test
    carries [only], with or without filters. *)
Theorem only_survives_the_filters engine resolve testFilter allTests sel t :
  selectTests engine resolve testFilter allTests = Proceed sel →
  existsb hasOnly allTests = true →
  t ∈ sel →
  only ∈ annotations t.
Proof.
  intros Hsel Hany Ht. unfold selectTests in Hsel.
  rewrite refineWithOnly_existsb, Hany in Hsel.
  assert (Hin : t ∈ List.filter hasOnly allTests).
  { destruct testFilter as [[|f fs]|]; [by simplify_eq/= | | by simplify_eq/=].
    rewrite refineWithFilters_cons in Hsel.
    destruct (forallb _ _); [|done]. simplify_eq.
    by apply elem_of_List_filter in Ht as [Ht _]. }
  apply elem_of_List_filter in Hin as [_ Hin].
  unfold hasOnly in Hin. by apply bool_decide_eq_true in Hin.
Qed.

Lemma only_survives_the_filters_witness : only ∈ annotations only_in_a.
Proof.
  apply (only_survives_the_filters miniEngine resolveInW None
           [only_in_a; test_in_a] [only_in_a] only_in_a).
  - reflexivity.
  - reflexivity.
  - set_solver.
Defined.

(** ** runner.ts: the walk over the suites *)

Lemma suiteCount_cons s o ts ss rest :
  list_sum (map suiteCount (SuiteNode s o ts ss :: rest))
  = S (list_sum (map suiteCount ss) + list_sum (map suiteCount rest)).
Proof. reflexivity. Qed.

(** X27. The walk of [runSuites] ends after as many rounds as there are
    suites, and creates one task for every test of the given suites and of
    all the suites nested in them, and no other task. *)
Theorem runSuites_walk_reaches_every_test (fuel : nat) (suites : list SuiteTree) :
  list_sum (map suiteCount suites) ≤ fuel →
  ∃ ts, runSuites_walk fuel suites = Some ts
        ∧ ts ≡ₚ concat (map allTestsOf suites).
Proof.
  revert suites. induction fuel as [|fuel IH]; intros suites Hfuel.
  - destruct suites as [|[s o ts ss] rest]; [by exists []|].
    rewrite suiteCount_cons in Hfuel. lia.
  - destruct suites as [|[s o ts ss] rest]; [by exists []|].
    cbn [runSuites_walk tree_tests tree_suites].
    destruct (IH (rest ++ ss)) as (later & -> & Hperm).
    { rewrite suiteCount_cons in Hfuel.
      rewrite List.map_app, list_sum_app. lia. }
    eexists. split; [done|].
    cbn [map concat allTestsOf]. rewrite Hperm, List.map_app, concat_app.
    rewrite <- !app_assoc. apply Permutation_app_head, Permutation_app_comm.
Qed.

Lemma runSuites_walk_reaches_every_test_witness :
  ∃ ts, runSuites_walk 3 [sampleTree] = Some ts
        ∧ ts ≡ₚ concat (map allTestsOf [sampleTree]).
Proof.
  apply (runSuites_walk_reaches_every_test 3 [sampleTree]). vm_compute. lia.
Defined.

(** ** worker.ts: the two ends of a call *)

(** Only the first [resolve] counts. *)
Lemma runTestWorker_events_resolved timeout t0 trace startTime r :
  runTestWorker_events timeout t0 trace startTime (Resolved r) = Resolved r.
Proof.
  revert startTime. induction trace as [|[t ev] trace IH]; intros startTime;
    cbn [runTestWorker_events].
  - by case_bool_decide.
  - destruct (_ && _); [done|].
    destruct ev as [[st|msg d]| |e]; cbn.
    + case_bool_decide; apply IH.
    + case_bool_decide; apply IH.
    + done.
    + by destruct e.
Qed.

Lemma beforeDeadline_not_late timeout t :
  beforeDeadline timeout t = true →
  bool_decide (timeout > 0)%Z && bool_decide (timeout ≤ t)%Z = false.
Proof.
  unfold beforeDeadline. rewrite bool_decide_eq_true. intros H.
  apply andb_false_iff. rewrite !bool_decide_eq_false. lia.
Qed.

(** What [runTestWorker] makes of a run of [testWorker] whose body ends
    before the deadline. *)
Lemma runTestWorker_testWorker timeout t0 ts te body :
  (ts ≤ te)%Z → (t0 + ts ≠ 0)%Z → beforeDeadline timeout te = true →
  runTestWorker timeout t0 (testWorker t0 ts (Some (te, body)))
  = Resolved
      match body with
      | BodyReturns => mkWorkerResult None true (te - ts)
      | BodyThrows e =>
          match testWorker_errorMessage e with
          | Some errorMessage =>
              if bool_decide (errorMessage ≠ "")
              then mkWorkerResult (Some errorMessage) false (te - ts)
              else mkWorkerResult None true (te - ts)
          | None => mkWorkerResult None true (te - ts)
          end
      end.
Proof.
  intros Hle Hclock Hte.
  assert (Hts : beforeDeadline timeout ts = true).
  { unfold beforeDeadline in *. apply bool_decide_eq_true.
    apply bool_decide_eq_true in Hte. lia. }
  unfold runTestWorker, testWorker. cbn [runTestWorker_events].
  rewrite (beforeDeadline_not_late _ _ Hts). cbn [runTestWorker_on].
  rewrite bool_decide_eq_true_2 by done.
  assert (Hpass : runTestWorker_events timeout t0 [(te, Fulfil)] (t0 + ts)%Z Pending
                  = Resolved (mkWorkerResult None true (te - ts))).
  { cbn [runTestWorker_events]. rewrite (beforeDeadline_not_late _ _ Hte).
    cbn. do 2 f_equal. lia. }
  destruct body as [|e]; [exact Hpass|].
  destruct (testWorker_errorMessage e) as [msg|]; [|exact Hpass].
  case_bool_decide as Hmsg; [|exact Hpass].
  cbn [runTestWorker_events]. rewrite (beforeDeadline_not_late _ _ Hte).
  cbn [runTestWorker_on]. rewrite bool_decide_eq_true_2 by done.
  cbn [resolve]. by rewrite ?runTestWorker_events_resolved.
Qed.

(** X10. When a test body throws a string or an Error before the deadline,
    the call resolves as a failure that carries the thrown text (the stack
    of an Error, or its message without a stack) and the duration measured
    in the worker; the pool promise being fulfilled afterwards does not
    turn it into a pass. *)
Theorem thrown_error_reaches_the_caller timeout t0 ts te e errorMessage :
  (ts ≤ te)%Z → (t0 + ts ≠ 0)%Z → beforeDeadline timeout te = true →
  testWorker_errorMessage e = Some errorMessage →
  errorMessage ≠ "" →
  runTestWorker timeout t0 (testWorker t0 ts (Some (te, BodyThrows e)))
  = Resolved (mkWorkerResult (Some errorMessage) false (te - ts)).
Proof.
  intros Hle Hclock Hte He Hmsg. rewrite runTestWorker_testWorker by done.
  by rewrite He, bool_decide_eq_true_2.
Qed.

Lemma thrown_error_reaches_the_caller_witness :
  runTestWorker 500 1000
    (testWorker 1000 3 (Some (40%Z, BodyThrows (ExcError None "no prompt"))))
  = Resolved (mkWorkerResult (Some "no prompt") false (40 - 3)).
Proof.
  apply (thrown_error_reaches_the_caller 500 1000 3 40
           (ExcError None "no prompt") "no prompt").
  - lia.
  - lia.
  - reflexivity.
  - reflexivity.
  - discriminate.
Defined.

(** X11. When a test body throws a value that is neither a string nor an
    Error, or throws the empty string or an Error whose text is empty,
    nothing is emitted and the call resolves as passed. *)
Theorem silent_throw_counts_as_passed timeout t0 ts te e :
  (ts ≤ te)%Z → (t0 + ts ≠ 0)%Z → beforeDeadline timeout te = true →
  testWorker_errorMessage e = None ∨ testWorker_errorMessage e = Some "" →
  runTestWorker timeout t0 (testWorker t0 ts (Some (te, BodyThrows e)))
  = Resolved (mkWorkerResult None true (te - ts)).
Proof.
  intros Hle Hclock Hte He. rewrite runTestWorker_testWorker by done.
  by destruct He as [-> | ->].
Qed.

Lemma silent_throw_counts_as_passed_witness :
  runTestWorker 500 1000 (testWorker 1000 3 (Some (40%Z, BodyThrows ExcOther)))
  = Resolved (mkWorkerResult None true (40 - 3)).
Proof.
  apply (silent_throw_counts_as_passed 500 1000 3 40 ExcOther).
  - lia.
  - lia.
  - reflexivity.
  - by left.
Defined.

(** X12. A passing test resolves as passed, and its duration is counted
    from the start time that the worker reported, not from the call. *)
Theorem passing_test_duration timeout t0 ts te :
  (ts ≤ te)%Z → (t0 + ts ≠ 0)%Z → beforeDeadline timeout te = true →
  runTestWorker timeout t0 (testWorker t0 ts (Some (te, BodyReturns)))
  = Resolved (mkWorkerResult None true (te - ts)).
Proof. intros Hle Hclock Hte. by rewrite runTestWorker_testWorker. Qed.

Lemma passing_test_duration_witness :
  runTestWorker 0 1000 (testWorker 1000 3 (Some (40%Z, BodyReturns)))
  = Resolved (mkWorkerResult None true (40 - 3)).
Proof.
  apply (passing_test_duration 0 1000 3 40); [lia | lia | reflexivity].
Defined.

(** X13. Without a positive timeout, a call whose test body never ends is
    never settled. *)
Theorem hanging_test_without_timeout_stays_pending timeout t0 ts :
  (timeout ≤ 0)%Z →
  runTestWorker timeout t0 (testWorker t0 ts None) = Pending.
Proof.
  intros Hno. unfold runTestWorker, testWorker. cbn [runTestWorker_events].
  rewrite (bool_decide_eq_false_2 (timeout > 0)%Z) by lia. cbn.
  by case_bool_decide.
Qed.

Lemma hanging_test_without_timeout_stays_pending_witness :
  runTestWorker 0 1000 (testWorker 1000 3 None) = Pending.
Proof. apply (hanging_test_without_timeout_stays_pending 0 1000 3). lia. Defined.

(** ** worker.ts: getMockSuite *)

Lemma getMockSuite_newSuites_filter s :
  getMockSuite_newSuites s
  = List.filter (λ k, bool_decide (k.2 ≠ describe)) (map suiteKey (ancestors s)).
Proof.
  induction s as [t ty | t ty p IH] using Suite_chain_ind;
    cbn [getMockSuite_newSuites ancestors parentSuite map List.filter suiteKey
         suite_type suite_title snd].
  - by case_bool_decide.
  - rewrite IH. by case_bool_decide.
Qed.

Lemma getMockSuite_link_ancestors l :
  match getMockSuite_link l with
  | Some m => map suiteKey (ancestors m) = l
  | None => l = []
  end.
Proof.
  induction l as [|[t ty] l IH]; [done|].
  cbn [getMockSuite_link ancestors parentSuite map suiteKey suite_title suite_type].
  destruct (getMockSuite_link l) as [m|]; cbn; by rewrite IH.
Qed.

(** X14. The mock suite sent to the worker is the chain of the ancestors
    of the test that are not describe suites, nearest first, with their
    titles and types; there is none when every ancestor is a describe
    suite. *)
Theorem getMockSuite_keeps_non_describe_ancestors (t : TestCase) :
  match getMockSuite t with
  | Some m =>
      map suiteKey (ancestors m)
      = List.filter (λ k, bool_decide (k.2 ≠ describe))
          (map suiteKey (ancestors (suite t)))
  | None =>
      List.filter (λ k, bool_decide (k.2 ≠ describe))
        (map suiteKey (ancestors (suite t))) = []
  end.
Proof.
  unfold getMockSuite.
  pose proof (getMockSuite_link_ancestors (getMockSuite_newSuites (suite t))) as H.
  destruct (getMockSuite_link _) as [m|];
    by rewrite <- getMockSuite_newSuites_filter.
Qed.

Lemma getMockSuite_link_describeFree s :
  describeFree s →
  getMockSuite_link (getMockSuite_newSuites s) = Some s.
Proof.
  unfold describeFree.
  induction s as [t ty | t ty p IH] using Suite_chain_ind;
    cbn [ancestors parentSuite getMockSuite_newSuites suite_type suite_title];
    intros Hfree; apply Forall_cons in Hfree as [Hty Hrest]; cbn in Hty;
    rewrite bool_decide_eq_true_2 by done; cbn [getMockSuite_link].
  - done.
  - by rewrite IH.
Qed.

Lemma getMockSuite_newSuites_describesOver s s' :
  describesOver s s' → getMockSuite_newSuites s' = getMockSuite_newSuites s.
Proof. induction 1 as [|title s' _ IH]; [done|]. by cbn. Qed.

(** X15. For every test that the calls of a file create under a suite
    without describe ancestors (the file suite), in whatever describe
    groups, the mock suite is that suite: the worker evaluates the file
    under the same suite chain as the orchestrator did. *)
Theorem mock_suite_of_declared_test s ds t :
  describeFree s →
  t ∈ declared s ds →
  getMockSuite t = Some s.
Proof.
  intros Hfree Ht. unfold getMockSuite.
  rewrite (getMockSuite_newSuites_describesOver s (suite t))
    by by eapply declared_describesOver.
  by apply getMockSuite_link_describeFree.
Qed.

Lemma mock_suite_of_declared_test_witness :
  getMockSuite (mkTestCase "prompt" (mkLocation 7 40) 2
                  (mkSuite "shell" describe (Some fileSuite_a)) [fail_] [])
  = Some fileSuite_a.
Proof.
  apply (mock_suite_of_declared_test fileSuite_a onlyFailCalls).
  - repeat constructor; discriminate.
  - vm_compute. set_solver.
Defined.

(** ** test.ts and runTest: more on the declarations and the registry *)

Lemma evalDecl_options d g :
  tree_options (ambient (evalDecl d g))
  = match d with
    | CallUse o' => o' ∪ tree_options (ambient g)
    | _ => tree_options (ambient g)
    end.
Proof.
  by destruct d.
Qed.

(** X16. The options of a suite change only through the [test.use] calls
    made directly in it, the later call winning key by key: a [test.use]
    inside a describe group never changes the options of the enclosing
    suite. *)
Theorem use_in_a_group_stays_in_the_group (ds : list Decl) (g : Globals) :
  tree_options (ambient (evalDecls ds g))
  = optionsAfter ds (tree_options (ambient g)).
Proof.
  unfold evalDecls, optionsAfter. revert g.
  induction ds as [|d ds IH]; intros g; [done|].
  cbn [foldl]. rewrite IH, evalDecl_options. by destruct d.
Qed.

(** X17. The calls of a file add to the suite tree exactly the tests they
    declare, each once (those of [test.fail] and of nested groups
    included), and take none away. *)
Theorem declared_tests_fill_the_tree (ds : list Decl) (g : Globals) :
  allTestsOf (ambient (evalDecls ds g))
  ≡ₚ allTestsOf (ambient g) ++ declared (tree_suite (ambient g)) ds.
Proof. by destruct (evalDecls_effect ds g) as (_ & _ & Ha). Qed.

Lemma registerAll_keyedById ts (m : gmap string TestCase) :
  keyedById (Some m) → keyedById (Some (registerAll ts m)).
Proof.
  intros Hm m' k t [= <-] Hk.
  apply registerAll_lookup_Some in Hk as [Hk | [_ Hk]]; [|done].
  by apply (Hm m).
Qed.

Lemma evalDecls_keyedById ds g :
  keyedById (tests g) → keyedById (tests (evalDecls ds g)).
Proof.
  intros Hg. destruct (evalDecls_effect ds g) as (_ & Ht & _). rewrite Ht.
  destruct (tests g) as [m|]; cbn; [|by intros ? ? ? [=]].
  by apply registerAll_keyedById.
Qed.

(** X18. In a worker whose registry stores every test under its own id (as
    a new worker's empty registry does), [runTest] keeps it so, and the
    test that it looks up for a test id has that id. *)
Theorem lookup_gives_a_test_with_the_id modules testId testSuite importPath w :
  keyedById (worker_tests w) →
  keyedById (worker_tests (runTest_lookup modules testId testSuite importPath w).2)
  ∧ ∀ t, (runTest_lookup modules testId testSuite importPath w).1 = Some t →
         id t = testId.
Proof.
  intros Hw.
  assert (H0 : keyedById (Some (default ∅ (worker_tests w)))).
  { destruct (worker_tests w) as [m|]; cbn; [done|].
    intros m k t [= <-] Hk. by rewrite lookup_empty in Hk. }
  assert (H1 : keyedById (worker_tests
                 (runTest_lookup modules testId testSuite importPath w).2)).
  { unfold runTest_lookup. case_bool_decide; cbn [snd worker_tests]; [done|].
    by apply (evalDecls_keyedById _ (mkGlobals testSuite _)). }
  split; [done|]. intros t Ht. revert H1 Ht. unfold runTest_lookup.
  case_bool_decide; cbn [fst snd worker_tests]; intros H1 Ht.
  - cbn in Ht. by apply (H1 _ _ _ eq_refl).
  - destruct (tests (evalDecls _ _)) as [m|]; [|done].
    cbn in Ht. by apply (H1 m).
Qed.

Lemma lookup_gives_a_test_with_the_id_witness :
  id (mkTestCase "prompt" (mkLocation 6 3) 2
        (mkSuite "shell" describe (Some fileSuite_a)) [skip] [])
  = "a.ts:6:6shellprompt".
Proof.
  apply (lookup_gives_a_test_with_the_id (λ _, groupCalls)
           "a.ts:6:6shellprompt" fileTree_a "file:///w/.tact/cache/a.js"
           freshWorker).
  - intros m k t H. discriminate H.
  - vm_compute. reflexivity.
Defined.

Lemma runTest_lookup_state modules testId testSuite importPath w :
  ∃ m imports,
    (runTest_lookup modules testId testSuite importPath w).2
    = mkWorkerGlobals (Some m) imports
    ∧ importPath ∈ imports.
Proof.
  unfold runTest_lookup. case_bool_decide as Hin; cbn [snd].
  - eauto.
  - destruct (evalDecls_effect (modules importPath)
                (mkGlobals testSuite (Some (default ∅ (worker_tests w)))))
      as (_ & Ht & _). cbn [tests] in Ht. rewrite Ht. cbn.
    eexists _, _. split; [done|]. set_solver.
Qed.

(** X19. A file is imported once per worker: a second [runTest] for the
    same path evaluates nothing, leaves the registry and the set of
    imported paths as the first call left them, and only looks the test
    up. *)
Theorem file_is_imported_once modules id1 id2 suite1 suite2 importPath w :
  runTest_lookup modules id2 suite2 importPath
    (runTest_lookup modules id1 suite1 importPath w).2
  = (worker_tests (runTest_lookup modules id1 suite1 importPath w).2
       ≫= (λ m, m !! id2),
     (runTest_lookup modules id1 suite1 importPath w).2).
Proof.
  destruct (runTest_lookup_state modules id1 suite1 importPath w)
    as (m & imports & -> & Hin).
  unfold runTest_lookup. cbn [importSet worker_tests].
  by rewrite bool_decide_eq_true_2.
Qed.

Lemma registerAll_lookup_found ts (m : gmap string TestCase) t :
  t ∈ ts →
  (∀ t', t' ∈ ts → id t' = id t → t' = t) →
  registerAll ts m !! id t = Some t.
Proof.
  induction ts as [|x ts IH] using rev_ind; intros Hin Huniq.
  - by apply elem_of_nil in Hin.
  - rewrite registerAll_app. cbn.
    destruct (decide (id x = id t)) as [E|Hne].
    + rewrite (Huniq x) by (by rewrite ?elem_of_app, ?list_elem_of_singleton; eauto).
      apply lookup_insert_eq.
    + rewrite lookup_insert_ne by done. apply IH.
      * apply elem_of_app in Hin as [Hin|Hin]; [done|].
        apply list_elem_of_singleton in Hin. by subst.
      * intros t' Ht'. apply Huniq, elem_of_app. by left.
Qed.

(** X20. In a worker that has not imported the file yet, a test declared
    through [test] or [test.skip] is found by its id, provided no other
    test declared so in the file has the same id. *)
Theorem declared_test_is_found_by_id modules testSuite importPath w t :
  importPath ∉ importSet w →
  t ∈ declared (tree_suite testSuite) (modules importPath) →
  declaredViaFail t = false →
  (∀ t', t' ∈ declared (tree_suite testSuite) (modules importPath) →
         declaredViaFail t' = false → id t' = id t → t' = t) →
  (runTest_lookup modules (id t) testSuite importPath w).1 = Some t.
Proof.
  intros Hnew Hin Hreg Huniq. unfold runTest_lookup.
  rewrite bool_decide_eq_false_2 by done. cbn [fst].
  destruct (evalDecls_effect (modules importPath)
              (mkGlobals testSuite (Some (default ∅ (worker_tests w)))))
    as (_ & Ht & _). cbn [tests ambient] in Ht. rewrite Ht. cbn.
  apply registerAll_lookup_found.
  - apply elem_of_List_filter. split; [done|]. by rewrite Hreg.
  - intros t' Ht' E. apply elem_of_List_filter in Ht' as [Ht1 Ht2].
    apply Huniq; [done| |done]. by apply negb_true_iff.
Qed.

Lemma declared_test_is_found_by_id_witness :
  (runTest_lookup (λ _, groupCalls) "a.ts:6:6shellprompt" fileTree_a
     "file:///w/.tact/cache/a.js" freshWorker).1
  = Some (mkTestCase "prompt" (mkLocation 6 3) 2
            (mkSuite "shell" describe (Some fileSuite_a)) [skip] []).
Proof.
  apply (declared_test_is_found_by_id (λ _, groupCalls) fileTree_a
           "file:///w/.tact/cache/a.js" freshWorker
           (mkTestCase "prompt" (mkLocation 6 3) 2
              (mkSuite "shell" describe (Some fileSuite_a)) [skip] [])).
  - set_solver.
  - vm_compute. set_solver.
  - reflexivity.
  - intros t' Ht' Hreg E. apply list_elem_of_In in Ht'. vm_compute in Ht'.
    destruct Ht' as [<- | [<- | [<- | []]]].
    + vm_compute in E. discriminate E.
    + reflexivity.
    + discriminate Hreg.
Defined.

(** ** toHaveValue: the message and the rendering *)

Lemma toHaveValue_message_passed_iff chalk isNot pass expected :
  toHaveValue_message chalk isNot pass expected = "passed" ↔ pass ≠ isNot.
Proof.
  unfold toHaveValue_message. destruct pass, isNot; cbn [negb andb]; split;
    try done; intros H; discriminate H.
Qed.

(** X21. Whatever the colours, the message of [toHaveValue] is ["passed"]
    exactly when the assertion goes through, that is when [pass] differs
    from [isNot]. *)
Theorem message_is_passed_iff_assertion_succeeds
    cfg chalk isNot screen expected options :
  message (toHaveValue cfg chalk isNot screen expected options).1 = "passed"
  ↔ assertionSucceeds isNot
      (toHaveValue cfg chalk isNot screen expected options).1 = true.
Proof.
  unfold toHaveValue, assertionSucceeds.
  destruct (poll _ _ _ _ _) as [p st]. cbn [fst message pass].
  rewrite toHaveValue_message_passed_iff. by destruct p, isNot.
Qed.

(** X22. Both failure messages, of the positive and of the negated
    matcher, hold the expected value (a string as it is, a regular
    expression in its source form) and the comment that names the search
    method, each as coloured by chalk. *)
Theorem failure_message_names_expected_and_method chalk expected :
  includes (toHaveValue_message chalk false false expected)
    (green chalk (Expected_toString expected)) = true
  ∧ includes (toHaveValue_message chalk false false expected)
      (dim chalk ("// " +:+ comparisonMethod expected)) = true
  ∧ includes (toHaveValue_message chalk true true expected)
      (red chalk (Expected_toString expected)) = true
  ∧ includes (toHaveValue_message chalk true true expected)
      (dim chalk ("// " +:+ comparisonMethod expected)) = true.
Proof.
  unfold toHaveValue_message. cbn [negb andb].
  repeat split; apply includes_spec.
  - exists ("expect(" +:+ red chalk "received" +:+ ").toHaveValue("
            +:+ green chalk "expected" +:+ ") "
            +:+ dim chalk ("// " +:+ comparisonMethod expected)
            +:+ newline +:+ newline +:+ "Expected: "),
           (newline +:+ "Matches Found: " +:+ red chalk "0").
    by rewrite !append_assoc.
  - exists ("expect(" +:+ red chalk "received" +:+ ").toHaveValue("
            +:+ green chalk "expected" +:+ ") "),
           (newline +:+ newline +:+ "Expected: "
            +:+ green chalk (Expected_toString expected)
            +:+ newline +:+ "Matches Found: " +:+ red chalk "0").
    by rewrite !append_assoc.
  - exists ("expect(" +:+ red chalk "received" +:+ ").not.toHaveValue("
            +:+ green chalk "expected" +:+ ") "
            +:+ dim chalk ("// " +:+ comparisonMethod expected)
            +:+ newline +:+ newline +:+ "Expected: " +:+ green chalk "0 matches"
            +:+ newline +:+ "Found: "), "".
    rewrite !append_assoc. do 12 f_equal.
    induction (red chalk (Expected_toString expected)) as [|c s IH]; [done|].
    change (String c s = String c (s +:+ "")). by rewrite <- IH.
  - exists ("expect(" +:+ red chalk "received" +:+ ").not.toHaveValue("
            +:+ green chalk "expected" +:+ ") "),
           (newline +:+ newline +:+ "Expected: " +:+ green chalk "0 matches"
            +:+ newline +:+ "Found: " +:+ red chalk (Expected_toString expected)).
    by rewrite !append_assoc.
Qed.

Lemma render_app b1 b2 : render (b1 ++ b2) = render b1 +:+ render b2.
Proof. unfold render. by rewrite map_app, join_app. Qed.

(** X23. Rows are joined without a separator, so an expected string that
    ends one row and starts the next is found: if a row ends with [a] and
    the row below starts with [b], the sample for [a] followed by [b] is
    true. *)
Theorem value_across_two_rows_is_found
    screen options st rows1 r1 r2 rows2 (a1 a b b2 : string) :
  selectedBuffer options (screen (now st)) = rows1 ++ [r1; r2] ++ rows2 →
  join r1 = a1 +:+ a →
  join r2 = b +:+ b2 →
  expectedNow st = ExpString (a +:+ b) →
  (toHaveValue_callback screen options st).1 = true.
Proof.
  intros Hbuf H1 H2 He. unfold toHaveValue_callback. rewrite He, Hbuf. cbn [fst].
  apply includes_spec.
  exists (render rows1 +:+ a1), (b2 +:+ render rows2).
  rewrite !render_app. unfold render at 2. cbn [map].
  rewrite !join_cons, H1, H2. change (join []) with "".
  by rewrite !append_assoc.
Qed.

Lemma value_across_two_rows_is_found_witness :
  (toHaveValue_callback
     (λ _, mkTerminal [] [["$"; " "; "l"; "s"]; [" "; "-"; "l"; " "]]) None
     (mkMatcherState 0 (ExpString "ls -l"))).1 = true.
Proof.
  apply (value_across_two_rows_is_found _ None _ []
           ["$"; " "; "l"; "s"] [" "; "-"; "l"; " "] [] "$ " "ls" " -l" " ");
    reflexivity.
Defined.

(** ** transform.ts *)

Ltac pick_elem :=
  rewrite !elem_of_cons; repeat first [left; reflexivity | right].

Lemma extensionPattern_spec lang ext :
  lang = "t" ∨ lang = "j" →
  extensionPattern lang ext = true
  ↔ ext ∈ ["." +:+ lang +:+ "s"; ".m" +:+ lang +:+ "s"; ".c" +:+ lang +:+ "s";
           "." +:+ lang +:+ "sx"; ".m" +:+ lang +:+ "sx"; ".c" +:+ lang +:+ "sx"].
Proof.
  intros Hlang. unfold extensionPattern. split.
  - clear Hlang. destruct ext as [|dot rest]; [done|].
    rewrite andb_true_iff, bool_decide_eq_true. intros [-> Hbody].
    destruct rest as [|c r].
    + apply orb_true_iff in Hbody as [H|H]; apply bool_decide_eq_true in H;
        destruct lang; discriminate H.
    + destruct (isOneOf c "mc") eqn:Hc.
      * unfold isOneOf in Hc. apply bool_decide_eq_true in Hc. cbn in Hc.
        rewrite !elem_of_cons in Hc.
        destruct Hc as [-> | [-> | Hnil]]; [| |by apply elem_of_nil in Hnil];
          apply orb_true_iff in Hbody as [H|H]; apply bool_decide_eq_true in H;
          rewrite H; pick_elem.
      * apply orb_true_iff in Hbody as [H|H]; apply bool_decide_eq_true in H;
          rewrite H; pick_elem.
  - intros Hin. rewrite !elem_of_cons in Hin.
    destruct Hlang as [-> | ->];
      destruct Hin as [-> | [-> | [-> | [-> | [-> | [-> | Hnil]]]]]];
      try reflexivity; by apply elem_of_nil in Hnil.
Qed.

Lemma typescriptPattern_spec ext :
  typescriptPattern ext = true
  ↔ ext ∈ [".ts"; ".mts"; ".cts"; ".tsx"; ".mtsx"; ".ctsx"].
Proof. apply (extensionPattern_spec "t" ext). by left. Qed.

Lemma javascriptPattern_spec ext :
  javascriptPattern ext = true
  ↔ ext ∈ [".js"; ".mjs"; ".cjs"; ".jsx"; ".mjsx"; ".cjsx"].
Proof. apply (extensionPattern_spec "j" ext). by right. Qed.

(** X24. The two extension patterns of the transformer accept exactly six
    extensions each ([.ts .mts .cts .tsx .mtsx .ctsx] and the same with
    [js]), and none in common: [fileType] is undefined, and
    [transformFile] throws, exactly for the other extensions. *)
Theorem extension_patterns_accept (ext : string) :
  (typescriptPattern ext = true
   ↔ ext ∈ [".ts"; ".mts"; ".cts"; ".tsx"; ".mtsx"; ".ctsx"])
  ∧ (javascriptPattern ext = true
     ↔ ext ∈ [".js"; ".mjs"; ".cjs"; ".jsx"; ".mjsx"; ".cjsx"])
  ∧ ¬ (typescriptPattern ext = true ∧ javascriptPattern ext = true)
  ∧ (fileType ext = None
     ↔ ext ∉ [".ts"; ".mts"; ".cts"; ".tsx"; ".mtsx"; ".ctsx";
              ".js"; ".mjs"; ".cjs"; ".jsx"; ".mjsx"; ".cjsx"]).
Proof.
  pose proof (typescriptPattern_spec ext) as Ht.
  pose proof (javascriptPattern_spec ext) as Hj.
  split; [done|]. split; [done|]. split.
  - rewrite Ht, Hj, !elem_of_cons, !elem_of_nil. intros [H1 H2].
    destruct H1 as [-> | [-> | [-> | [-> | [-> | [-> | []]]]]]];
      destruct H2 as [H | [H | [H | [H | [H | [H | []]]]]]]; discriminate H.
  - unfold fileType.
    change [".ts"; ".mts"; ".cts"; ".tsx"; ".mtsx"; ".ctsx";
            ".js"; ".mjs"; ".cjs"; ".jsx"; ".mjsx"; ".cjsx"]
      with ([".ts"; ".mts"; ".cts"; ".tsx"; ".mtsx"; ".ctsx"]
            ++ [".js"; ".mjs"; ".cjs"; ".jsx"; ".mjsx"; ".cjsx"]).
    rewrite elem_of_app, <- Ht, <- Hj.
    destruct (typescriptPattern ext), (javascriptPattern ext); split;
      try done; try (intros _ [?|?]; done);
      intros H; exfalso; apply H; eauto.
Qed.

(** X25. The extension of a transformed file is [.mjs] when the source
    extension starts with [.m] and [.js] otherwise, so among the accepted
    extensions only [.mts .mtsx .mjs .mjsx] give [.mjs]; it is always one
    that the JavaScript pattern accepts, and transforming the name again
    keeps it. *)
Theorem newExtension_is_a_javascript_extension (ext : string) :
  (newExtension ext = ".mjs" ∨ newExtension ext = ".js")
  ∧ javascriptPattern (newExtension ext) = true
  ∧ newExtension (newExtension ext) = newExtension ext
  ∧ List.filter (λ e, bool_decide (newExtension e = ".mjs"))
      [".ts"; ".mts"; ".cts"; ".tsx"; ".mtsx"; ".ctsx";
       ".js"; ".mjs"; ".cjs"; ".jsx"; ".mjsx"; ".cjsx"]
    = [".mts"; ".mtsx"; ".mjs"; ".mjsx"].
Proof.
  assert (E : newExtension ext = if startsWith ".m" ext then ".mjs" else ".js")
    by done.
  split; [|split; [|split]]; [| | |reflexivity];
    destruct (startsWith ".m" ext); rewrite !E; auto.
Qed.

Lemma untilLineBreak_single (a : string) :
  singleLine a = true → untilLineBreak a = a.
Proof.
  induction a as [|c a IH]; [done|]. cbn.
  intros [Hc Ha]%andb_true_iff. apply negb_true_iff in Hc. rewrite Hc.
  by rewrite IH.
Qed.

Lemma untilLineBreak_app (a : string) c rest :
  singleLine a = true → isLineBreak c = true →
  untilLineBreak (a +:+ String c rest) = a.
Proof.
  intros Ha Hc. induction a as [|x a IH].
  - change (untilLineBreak (String c rest) = ""). cbn. by rewrite Hc.
  - cbn in Ha. apply andb_true_iff in Ha as [Hx Ha]. apply negb_true_iff in Hx.
    change (untilLineBreak (String x (a +:+ String c rest)) = String x a).
    cbn. by rewrite Hx, IH.
Qed.

Lemma transformedCode_first_line sourceHash hasMap destinationFilename resultCode :
  ∃ rest, transformedCode sourceHash hasMap destinationFilename resultCode
          = hashHeader sourceHash +:+ String (ascii_of_nat 10) rest.
Proof. unfold transformedCode, mapHeader. destruct hasMap; eauto. Qed.

(** X26. What [transformFile] writes, [copyFilesToCache] reads back: for a
    hash without line breaks (a hexadecimal digest), the first line of the
    transformed file is the hash header, the expression that reads it
    gives the hash again, and the file is transformed anew exactly when
    the hash of the source differs from the one in the header. *)
Theorem hash_header_round_trip
    (sourceHash : string) hasMap destinationFilename resultCode fileHash :
  singleLine sourceHash = true →
  firstLine (transformedCode sourceHash hasMap destinationFilename resultCode)
  = Some (hashHeader sourceHash)
  ∧ existingHash (hashHeader sourceHash) = Some sourceHash
  ∧ needsTransform
      (Some (transformedCode sourceHash hasMap destinationFilename resultCode))
      fileHash
    = Some (negb (bool_decide (sourceHash = fileHash))).
Proof.
  intros Hh.
  assert (Hline : firstLine
            (transformedCode sourceHash hasMap destinationFilename resultCode)
          = Some (hashHeader sourceHash)).
  { destruct (transformedCode_first_line sourceHash hasMap destinationFilename
                resultCode) as [rest ->].
    change (Some (untilLineBreak (hashHeader sourceHash
                                    +:+ String (ascii_of_nat 10) rest))
            = Some (hashHeader sourceHash)).
    by rewrite untilLineBreak_app. }
  assert (Hread : existingHash (hashHeader sourceHash) = Some sourceHash).
  { assert (E : matchHashHere (hashHeader sourceHash)
                = Some (untilLineBreak sourceHash)) by reflexivity.
    unfold hashHeader in *. destruct sourceHash as [|c s].
    - reflexivity.
    - change (match matchHashHere ("//# hash=" +:+ String c s) with
              | Some h => Some h
              | None => existingHash ("/# hash=" +:+ String c s)
              end = Some (String c s)).
      by rewrite E, untilLineBreak_single. }
  split; [done|]. split; [done|].
  unfold needsTransform. rewrite Hline, Hread. do 2 f_equal.
  case_bool_decide as H1; case_bool_decide as H2; try done.
  - by simplify_eq.
  - by subst.
Qed.

Lemma hash_header_round_trip_witness :
  needsTransform
    (Some (transformedCode "d41d8cd98f00b204e9800998ecf8427e" true "a.js"
             "export {};"))
    "d41d8cd98f00b204e9800998ecf8427e"
  = Some false.
Proof.
  apply (hash_header_round_trip "d41d8cd98f00b204e9800998ecf8427e" true "a.js"
           "export {};" "d41d8cd98f00b204e9800998ecf8427e").
  reflexivity.
Defined.
